(** * Coco-bot: the music cog (extensions/music/music.py)

    A shallow embedding of the [Music] command cog and of the per-guild
    playback session it drives.  The cog itself is embedded from its source;
    the session class [VoiceState] (voicestate.py) and the resolver
    (ytdlsource.py) are collaborators of the cog whose behaviour is taken
    from the specification, and are kept in a module of their own.

    Conventions.
    - A coroutine of the cog is a computation [Cmd A] over the session object
      that [ctx.voice_state] refers to: it returns a value or raises, leaves
      a new session, and logs what it sent to the chat and to the audio sink.
    - [self.voice_states] is a finite map from guild ids to sessions.  The
      object [ctx.voice_state] is the one stored under [ctx.guild.id]; a
      command's mutations are written back to that entry as long as the
      entry is still there.
    - Python's [int] is [Z].  Python's [float] is the IEEE 754 binary64
      number, [float] of [PrimFloat]: true division and multiplication round
      as Python's do. *)

From Stdlib Require Import ZArith Lia PrimFloat Uint63 FloatOps SpecFloat.
From stdpp Require Import base option list gmap strings.

Open Scope string_scope.
Open Scope list_scope.
Open Scope Z_scope.

(** ** Values exchanged with the chat and the audio sink *)

Definition Channel := Z.

Record Track := mkTrack {
  title : string;
  url : string;
  duration : option Z;
  requester : string
}.

Inductive Exn :=
| IndexError
| KeyError
| AttributeError
| YTDLError (msg : string)
| ConnectionError (ch : Channel).

Inductive Emoji :=
| StopButton
| PauseButton
| PlayButton
| SkipButton
| ShuffleButton
| CheckMark.

Inductive Event :=
| Send (text : string)
| SendVolume (percent : float)
| SendEnqueued (song : Track)
| SendNowPlaying (song : Track)
| SendQueue (entries : list (Z * Track)) (page pages : Z)
| AddReaction (e : Emoji)
| Connected (ch : Channel)
| MovedTo (ch : Channel)
| Resolved (query : string)
| StreamStarted (song : Track) (vol : float)
| StreamPaused
| StreamResumed
| StreamStopped
| QueueEmpty.

Inductive PlaybackState := Idle | Playing | Paused.

Inductive Result (A : Type) :=
| Ok (a : A)
| Raise (e : Exn).
Arguments Ok {A} a.
Arguments Raise {A} e.

(** ** Python sequences *)

(** [seq[start:stop]] with Python's rules: a negative bound counts from the
    end, and both bounds are clamped to the sequence. *)
Definition py_bound (len i : Z) : Z :=
  if i <? 0 then Z.max (i + len) 0 else Z.min i len.

Definition py_slice {A} (l : list A) (start stop : Z) : list A :=
  let len := Z.of_nat (length l) in
  let lo := py_bound len start in
  let hi := py_bound len stop in
  take (Z.to_nat (hi - lo)) (drop (Z.to_nat lo) l).

(** [enumerate(l, start=start)] *)
Fixpoint enumerate {A} (l : list A) (start : Z) : list (Z * A) :=
  match l with
  | [] => []
  | x :: l' => (start, x) :: enumerate l' (start + 1)
  end.

(** [math.ceil(n / d)] for a length [n] and a positive [d]. *)
Definition ceil_div (n d : Z) : Z := (n + d - 1) / d.

(** ** Python floats *)

(** The float an [int] is converted to when it meets a float or is truly
    divided.  The cog converts the constant 100 and volumes it has checked
    to lie between 0 and 200; [of_uint63] is exact on these. *)
Definition float_of_int (n : Z) : float := PrimFloat.of_uint63 (Uint63.of_Z n).

(** [n / d] on two ints: the float nearest to the quotient. *)
Definition truediv (n d : Z) : float :=
  PrimFloat.div (float_of_int n) (float_of_int d).

(** [x * n] for a float [x] and an int [n]. *)
Definition float_mul_int (x : float) (n : Z) : float :=
  PrimFloat.mul x (float_of_int n).

(** Whether the float [x] is a float nearest to the fraction [num / den]
    of a [num >= 0] and a [den > 0]: [x] is [m * 2 ^ e] for its mantissa
    [m] and exponent [e], and lies no further from the fraction than half
    of [2 ^ e], the distance to the next float. *)
Definition nearest_float (x : float) (num den : Z) : bool :=
  match Prim2SF x with
  | S754_zero _ => num =? 0
  | S754_finite false m e =>
      if e <? 0 then Z.abs (2 * den * Z.pos m - 2 * num * 2 ^ (- e)) <=? den
      else Z.abs (2 * den * Z.pos m * 2 ^ e - 2 * num) <=? den * 2 ^ e
  | _ => false
  end.

(** ** The session object *)

Module VoiceState.

(** Modelled from the spec: the class [VoiceState] (voicestate.py is not
    part of the sources), the spec's PlaybackSession: "connectionHandle
    (optional - present iff connected), queue, current: optional Track,
    playbackState: Idle, Playing, Paused, loopCurrent: bool, volume".  The
    queue is an ordered sequence of tracks. *)
Record t := mk {
  voice : option Channel;
  songs : list Track;
  current : option Track;
  playback : PlaybackState;
  loop : bool;
  volume : float
}.

Definition set_voice (v : option Channel) (s : t) : t :=
  mk v (songs s) (current s) (playback s) (loop s) (volume s).
Definition set_songs (q : list Track) (s : t) : t :=
  mk (voice s) q (current s) (playback s) (loop s) (volume s).
Definition set_current (c : option Track) (s : t) : t :=
  mk (voice s) (songs s) c (playback s) (loop s) (volume s).
Definition set_playback (p : PlaybackState) (s : t) : t :=
  mk (voice s) (songs s) (current s) p (loop s) (volume s).
Definition set_volume (v : float) (s : t) : t :=
  mk (voice s) (songs s) (current s) (playback s) (loop s) v.
Definition set_loop (b : bool) (s : t) : t :=
  mk (voice s) (songs s) (current s) (playback s) b (volume s).

(** A coroutine running against one session. *)
Definition Cmd (A : Type) : Type := t -> Result A * t * list Event.

#[global] Instance Cmd_ret : MRet Cmd := fun A a s => (Ok a, s, []).

#[global] Instance Cmd_bind : MBind Cmd := fun A B f m s =>
  match m s with
  | (Ok a, s1, out1) =>
      match f a s1 with
      | (r, s2, out2) => (r, s2, out1 ++ out2)
      end
  | (Raise e, s1, out1) => (Raise e, s1, out1)
  end.

#[global] Instance Cmd_throw : MThrow Exn Cmd := fun A e s => (Raise e, s, []).

Definition get : Cmd t := fun s => (Ok s, s, []).
Definition modify (f : t -> t) : Cmd unit := fun s => (Ok tt, f s, []).
Definition emit (e : Event) : Cmd unit := fun s => (Ok tt, s, [e]).

(** [try: body  except <handled>: handler]: [handler e] is [None] for an
    exception the clause does not name. *)
Definition try_except {A} (body : Cmd A) (handler : Exn -> option (Cmd A)) : Cmd A :=
  fun s =>
    match body s with
    | (Ok a, s1, out1) => (Ok a, s1, out1)
    | (Raise e, s1, out1) =>
        match handler e with
        | Some h =>
            match h s1 with
            | (r, s2, out2) => (r, s2, out1 ++ out2)
            end
        | None => (Raise e, s1, out1)
        end
    end.

(** Modelled from the spec: [VoiceState.__init__] (voicestate.py is not
    part of the sources).  The registry "constructs and stores a new Idle
    session with an empty queue"; a new session has no connection and no
    current track.  The initial volume is not given and is a parameter. *)
Definition init (default_volume : float) : t :=
  mk None [] None Idle false default_volume.

(** Modelled from the spec: [VoiceState.is_playing].  The session is in one
    of [Idle], [Playing], [Paused]; pause and resume fail from [Idle] and
    "already paused" is reported from [Paused], so the check that guards
    them holds in [Playing] and [Paused] and fails in [Idle]. *)
Definition is_playing (s : t) : bool :=
  match playback s with
  | Idle => false
  | Playing | Paused => true
  end.

(** Modelled from the spec: [VoiceState.is_paused], the state is [Paused]. *)
Definition is_paused (s : t) : bool :=
  match playback s with
  | Paused => true
  | Idle | Playing => false
  end.

(** Modelled from the spec: [VoiceState.pause], "only valid from Playing;
    transitions to Paused". *)
Definition pause : Cmd unit := fun s =>
  match playback s with
  | Playing => (Ok tt, set_playback Paused s, [StreamPaused])
  | Idle | Paused => (Ok tt, s, [])
  end.

(** Modelled from the spec: [VoiceState.resume], "only valid from Paused;
    transitions to Playing". *)
Definition resume : Cmd unit := fun s =>
  match playback s with
  | Paused => (Ok tt, set_playback Playing s, [StreamResumed])
  | Idle | Playing => (Ok tt, s, [])
  end.

(** Modelled from the spec: [VoiceState.stop], "clears the entire
    TrackQueue, clears current, stops any active stream, transitions to
    Idle.  Does not disconnect."  A stream is active in [Playing] and in
    [Paused]. *)
Definition stop : Cmd unit := fun s =>
  (Ok tt,
   mk (voice s) [] None Idle (loop s) (volume s),
   if is_playing s then [StreamStopped] else []).

(** Modelled from the spec: [SongQueue.remove], the queue's [removeAt] after
    the cog has translated the index to zero-based: it "fails with an
    out-of-range condition" outside the queue and "otherwise removes and
    returns that element, preserving relative order of the rest". *)
Definition songs_remove (index : Z) : Cmd Track := fun s =>
  if index <? 0 then (Raise IndexError, s, [])
  else
    match songs s !! Z.to_nat index with
    | Some x => (Ok x, set_songs (delete (Z.to_nat index) (songs s)) s, [])
    | None => (Raise IndexError, s, [])
    end.

(** Modelled from the spec: [dequeueNext], "if loopCurrent is true and
    currentTrack is present, returns a copy of currentTrack without
    consuming the queue; otherwise removes and returns the front element,
    or returns nothing if the queue is empty". *)
Definition dequeueNext : Cmd (option Track) := fun s =>
  match loop s, current s with
  | true, Some c => (Ok (Some c), s, [])
  | _, _ =>
      match songs s with
      | [] => (Ok None, s, [])
      | x :: rest => (Ok (Some x), set_songs rest s, [])
      end
  end.

(** Modelled from the spec: [startNext], "pops from TrackQueue per the loop
    rule; if none available, transitions to Idle, clears current, and emits
    a queue-empty event; otherwise sets current to the popped Track, begins
    streaming at the session's current volume, transitions to Playing". *)
Definition startNext : Cmd unit :=
  next ← dequeueNext;
  match next with
  | None =>
      modify (fun s => set_playback Idle (set_current None s)) ;;
      emit QueueEmpty
  | Some x =>
      modify (set_current (Some x)) ;;
      s ← get;
      emit (StreamStarted x (volume s)) ;;
      modify (set_playback Playing)
  end.

(** Modelled from the spec: [VoiceState.skip], "valid from Playing or
    Paused; stops the current stream immediately and calls startNext()". *)
Definition skip : Cmd unit :=
  s ← get;
  if is_playing s then
    emit StreamStopped ;;
    startNext
  else mret tt.

Section External.

(** The external resolver: a track, or the text of the resolution
    error. *)
Variable resolve : string -> Track + string.

(** The voice server: whether a connection to the channel can be
    established. *)
Variable reachable : Channel -> bool.

(** The random source: the order in which a shuffle leaves the songs it is
    given. *)
Variable random_order : list Track -> list Track.

(** Modelled from the spec: [VoiceState.shuffle], the queue's [shuffle],
    which "performs an unbiased random permutation of all remaining
    elements in place". *)
Definition shuffle : Cmd unit :=
  modify (fun s => set_songs (random_order (songs s)) s).

(** Modelled from the spec: [VoiceState.connect], "if not connected,
    establishes the connection; state unaffected"; a connection error
    leaves the session "in its prior state". *)
Definition connect (destination : Channel) : Cmd unit := fun s =>
  if reachable destination
  then (Ok tt, set_voice (Some destination) s, [Connected destination])
  else (Raise (ConnectionError destination), s, []).

(** Modelled from the spec: [VoiceState.move_to], "if already connected to
    a different channel, moves the connection (pure reconnection, not a
    stop)". *)
Definition move_to (destination : Channel) : Cmd unit := fun s =>
  if reachable destination
  then (Ok tt, set_voice (Some destination) s, [MovedTo destination])
  else (Raise (ConnectionError destination), s, []).

(** Modelled from the spec: [VoiceState.add_song], "resolves query via the
    external resolver into a Track (or fails with a resolution error,
    propagated unchanged to the caller); enqueues it; if state is Idle,
    triggers startNext().  Returns the enqueued Track". *)
Definition add_song (query : string) : Cmd Track :=
  emit (Resolved query) ;;
  match resolve query with
  | inr err => mthrow (YTDLError err)
  | inl song =>
      modify (fun s => set_songs (songs s ++ [song]) s) ;;
      s ← get;
      match playback s with
      | Idle => startNext
      | Playing | Paused => mret tt
      end ;;
      mret song
  end.

End External.

End VoiceState.

(** ** The cog *)

Module Music.

Abbreviation Cmd := VoiceState.Cmd.
Abbreviation get := VoiceState.get.
Abbreviation modify := VoiceState.modify.
Abbreviation emit := VoiceState.emit.
Abbreviation try_except := VoiceState.try_except.

(** What a command reads of its invocation context: the guild it was sent
    in, and the voice channel of its author, if any. *)
Record Context := mkContext {
  guild_id : Z;
  author_voice : option Channel
}.

Definition send (text : string) : Cmd unit := emit (Send text).
Definition add_reaction (e : Emoji) : Cmd unit := emit (AddReaction e).

Definition _is_playing : Cmd bool :=
  s ← get;
  if VoiceState.is_playing s then mret true
  else send "Nothing is playing." ;; mret false.

Definition stop : Cmd unit :=
  playing ← _is_playing;
  if playing : bool then
    VoiceState.stop ;;
    add_reaction StopButton
  else mret tt.

Definition pause : Cmd unit :=
  playing ← _is_playing;
  if playing : bool then
    s ← get;
    if VoiceState.is_paused s then send "Already paused."
    else
      VoiceState.pause ;;
      add_reaction PauseButton
  else mret tt.

Definition resume : Cmd unit :=
  playing ← _is_playing;
  if playing : bool then
    s ← get;
    if negb (VoiceState.is_paused s) then send "Not paused."
    else
      VoiceState.resume ;;
      add_reaction PlayButton
  else mret tt.

(** [current] is [None] while nothing has been started: the attribute
    access on it raises. *)
Definition now : Cmd unit :=
  playing ← _is_playing;
  if playing : bool then
    s ← get;
    match VoiceState.current s with
    | Some song => emit (SendNowPlaying song)
    | None => mthrow AttributeError
    end
  else mret tt.

Definition skip : Cmd unit :=
  playing ← _is_playing;
  if playing : bool then
    VoiceState.skip ;;
    add_reaction SkipButton
  else mret tt.

(** The embed of [queue] is kept as its numbered entries and the two
    numbers of its footer. *)
Definition queue (page : Z) : Cmd unit :=
  s ← get;
  if Z.of_nat (length (VoiceState.songs s)) =? 0 then send "Empty queue"
  else
    let items_per_page := 10 in
    let pages := ceil_div (Z.of_nat (length (VoiceState.songs s))) items_per_page in
    let start := (page - 1) * items_per_page in
    let end_ := start + items_per_page in
    let queue :=
      map (fun '(i, song) => (i + 1, song))
          (enumerate (py_slice (VoiceState.songs s) start end_) start) in
    emit (SendQueue queue page pages).

Definition remove (index : Z) : Cmd unit :=
  try_except
    (VoiceState.songs_remove (index - 1) ;;
     add_reaction CheckMark)
    (fun e =>
       match e with
       | IndexError => Some (send "Invalid position.")
       | _ => None
       end).

(** The message "Volume is ...%" is kept as the float it prints. *)
Definition volume (vol : option Z) : Cmd unit :=
  playing ← _is_playing;
  if playing : bool then
    match vol with
    | None =>
        s ← get;
        emit (SendVolume (float_mul_int (VoiceState.volume s) 100))
    | Some v =>
        if (0 <=? v) && (v <=? 200) then
          modify (VoiceState.set_volume (truediv v 100)) ;;
          s ← get;
          emit (SendVolume (float_mul_int (VoiceState.volume s) 100))
        else send "Volume must be between 0 and 200 %"
    end
  else mret tt.

Definition loop : Cmd unit :=
  playing ← _is_playing;
  if playing : bool then
    modify (fun s => VoiceState.set_loop (negb (VoiceState.loop s)) s) ;;
    s ← get;
    let negative := if VoiceState.loop s then "" else "not " in
    send ("Song will now " +:+ negative +:+ "loop.")
  else mret tt.

(** The cog check.  Its [ctx.send] is not awaited, so nothing is sent. *)
Definition cog_check (ctx : Context) : bool :=
  match author_voice ctx with
  | None => false
  | Some _ => true
  end.

Section Cog.

Variable resolve : string -> Track + string.
Variable reachable : Channel -> bool.
Variable random_order : list Track -> list Track.
Variable default_volume : float.

Definition _get_voice_state (voice_states : gmap Z VoiceState.t) (ctx : Context)
  : VoiceState.t * gmap Z VoiceState.t :=
  match voice_states !! guild_id ctx with
  | Some state => (state, voice_states)
  | None =>
      let state := VoiceState.init default_volume in
      (state, <[guild_id ctx := state]> voice_states)
  end.

(** Returns the object bound to [ctx.voice_state].  The hook of the base
    cog (core/basecog.py) that runs first hands the context through. *)
Definition cog_before_invoke (voice_states : gmap Z VoiceState.t) (ctx : Context)
  : VoiceState.t * gmap Z VoiceState.t :=
  _get_voice_state voice_states ctx.

Definition _join (ctx : Context) (channel : option Channel) : Cmd unit :=
  match channel, author_voice ctx with
  | None, None =>
      send "Stop bothering me, when you are not in a voice channel."
  | Some destination, _ | None, Some destination =>
      s ← get;
      match VoiceState.voice s with
      | Some _ => VoiceState.move_to reachable destination
      | None => VoiceState.connect reachable destination
      end
  end.

(** Returns the new [self.voice_states].  [del] of a key that is not in
    the dictionary raises. *)
Definition leave (ctx : Context) (voice_states : gmap Z VoiceState.t)
  : Cmd (gmap Z VoiceState.t) :=
  s ← get;
  match VoiceState.voice s with
  | None =>
      send "I am not in a voice channel." ;;
      mret voice_states
  | Some _ =>
      VoiceState.stop ;;
      match voice_states !! guild_id ctx with
      | Some _ => mret (delete (guild_id ctx) voice_states)
      | None => mthrow KeyError
      end
  end.

Definition play (ctx : Context) (query : string) : Cmd unit :=
  s ← get;
  match VoiceState.voice s with
  | None => _join ctx None
  | Some _ => mret tt
  end ;;
  added ← try_except
    (song ← VoiceState.add_song resolve query;
     mret (Some song))
    (fun e =>
       match e with
       | YTDLError err =>
           Some (send ("An error occurred while processing this request: " +:+ err) ;;
                 mret None)
       | _ => None
       end);
  match added with
  | Some song => emit (SendEnqueued song)
  | None => mret tt
  end.

Definition shuffle : Cmd unit :=
  s ← get;
  if Z.of_nat (length (VoiceState.songs s)) <=? 1 then send "Not enough songs in queue"
  else
    VoiceState.shuffle random_order ;;
    add_reaction ShuffleButton.

(** The commands of the cog. *)
Inductive Command :=
| Join (channel : option Channel)
| Leave
| Play (query : string)
| Stop
| Pause
| Resume
| Now
| Skip
| Queue (page : Z)
| Remove (index : Z)
| Volume (vol : option Z)
| Loop
| Shuffle.

Definition run (ctx : Context) (voice_states : gmap Z VoiceState.t) (c : Command)
  : Cmd (gmap Z VoiceState.t) :=
  match c with
  | Leave => leave ctx voice_states
  | Join channel => _join ctx channel ;; mret voice_states
  | Play query => play ctx query ;; mret voice_states
  | Stop => stop ;; mret voice_states
  | Pause => pause ;; mret voice_states
  | Resume => resume ;; mret voice_states
  | Now => now ;; mret voice_states
  | Skip => skip ;; mret voice_states
  | Queue page => queue page ;; mret voice_states
  | Remove index => remove index ;; mret voice_states
  | Volume vol => volume vol ;; mret voice_states
  | Loop => loop ;; mret voice_states
  | Shuffle => shuffle ;; mret voice_states
  end.

(** One command of the cog as the framework invokes it: the cog check,
    the before-invoke hook, the command.  [None] when the check refuses
    the command.  The command works on the session object itself, so
    what it did to the session shows in [self.voice_states] under the
    guild's key, unless the command has deleted that key. *)
Definition invoke (voice_states : gmap Z VoiceState.t) (ctx : Context) (c : Command)
  : option (Result unit * gmap Z VoiceState.t * list Event) :=
  if cog_check ctx then
    match cog_before_invoke voice_states ctx with
    | (state, registered) =>
        match run ctx registered c state with
        | (Ok voice_states', state', out) =>
            Some (Ok tt, alter (fun _ => state') (guild_id ctx) voice_states', out)
        | (Raise e, state', out) =>
            Some (Raise e, alter (fun _ => state') (guild_id ctx) registered, out)
        end
    end
  else None.

End Cog.

End Music.

(** ** Reading a run of a command *)

(** How often the audio sink was told to stop a stream. *)
Fixpoint stream_stops (out : list Event) : nat :=
  match out with
  | [] => 0
  | StreamStopped :: out' => S (stream_stops out')
  | _ :: out' => stream_stops out'
  end.

(** ** Sessions and contexts used as concrete inputs *)

Definition song_now : Track := mkTrack "now" "https://example.org/now" (Some 95) "bob".
Definition song_a : Track := mkTrack "a" "https://example.org/a" (Some 180) "alice".
Definition song_b : Track := mkTrack "b" "https://example.org/b" (Some 200) "bob".
Definition song_c : Track := mkTrack "c" "https://example.org/c" None "alice".

(** A session nobody has used yet. *)
Definition idle_session : VoiceState.t := VoiceState.init 0.5.

(** A connected session playing [song_now] with three songs queued. *)
Definition playing_session : VoiceState.t :=
  VoiceState.mk (Some 7) [song_a; song_b; song_c] (Some song_now) Playing false 0.5.

Definition paused_session : VoiceState.t :=
  VoiceState.set_playback Paused playing_session.



(** A resolver that finds something for every query but one. *)
Definition sample_resolve (query : string) : Track + string :=
  if String.eqb query "nothing" then inr "Couldn't find anything"
  else inl (mkTrack query "https://example.org/q" None "alice").

Definition alice_ctx : Music.Context := Music.mkContext 1 (Some 7).

(** * The configuration (config/config.py) *)

(** ** Python dictionaries, in insertion order *)

Fixpoint dict_lookup {A} (key : string) (d : list (string * A)) : option A :=
  match d with
  | [] => None
  | (k, v) :: d' => if String.eqb k key then Some v else dict_lookup key d'
  end.

(** [d[key] = v]: an existing key keeps its place, a new key goes last. *)
Fixpoint dict_set {A} (key : string) (v : A) (d : list (string * A)) : list (string * A) :=
  match d with
  | [] => [(key, v)]
  | (k, v') :: d' =>
      if String.eqb k key then (k, v) :: d' else (k, v') :: dict_set key v d'
  end.

(** The value under [key] replaced by its image under [f]. *)
Fixpoint dict_alter {A} (f : A -> A) (key : string) (d : list (string * A)) : list (string * A) :=
  match d with
  | [] => []
  | (k, v) :: d' =>
      if String.eqb k key then (k, f v) :: d' else (k, v) :: dict_alter f key d'
  end.

Module Config.

#[local] Set Warnings "-register-all".

(** What [json.load] returns.  Numbers with a fraction or an exponent are
    floats and are left out; a string is the sequence of its characters,
    each an [ascii]. *)
Inductive JSON :=
| JNull
| JBool (b : bool)
| JInt (n : Z)
| JStr (s : string)
| JArr (items : list JSON)
| JObj (fields : list (string * JSON)).

Inductive Error :=
| TypeError
| AttributeError
| KeyError
| ValueError
| SystemExit (code : Z).

Inductive Outcome (A : Type) :=
| Returns (a : A)
| Raises (e : Error).
Arguments Returns {A} a.
Arguments Raises {A} e.

#[global] Instance Outcome_ret : MRet Outcome := fun A a => Returns a.

#[global] Instance Outcome_bind : MBind Outcome := fun A B f m =>
  match m with
  | Returns a => f a
  | Raises e => Raises e
  end.

(** [not v] is [negb (truthy v)]. *)
Definition truthy (v : JSON) : bool :=
  match v with
  | JNull => false
  | JBool b => b
  | JInt n => negb (n =? 0)
  | JStr s => negb (String.eqb s "")
  | JArr items => match items with [] => false | _ => true end
  | JObj fields => match fields with [] => false | _ => true end
  end.

(** [v == key] for a string [key]. *)
Definition is_str (key : string) (v : JSON) : bool :=
  match v with
  | JStr s => String.eqb s key
  | _ => false
  end.

(** [key in v]: a key of a dictionary, an item of a list, a part of a
    string; other values are not containers. *)
Definition contains (v : JSON) (key : string) : Outcome bool :=
  match v with
  | JObj fields => Returns (bool_decide (is_Some (dict_lookup key fields)))
  | JArr items => Returns (existsb (is_str key) items)
  | JStr s => Returns (bool_decide (is_Some (String.index 0 key s)))
  | JNull | JBool _ | JInt _ => Raises TypeError
  end.

(** [v[key]] for a string [key]: only a dictionary can be indexed by a
    string. *)
Definition getitem (v : JSON) (key : string) : Outcome JSON :=
  match v with
  | JObj fields =>
      match dict_lookup key fields with
      | Some x => Returns x
      | None => Raises KeyError
      end
  | _ => Raises TypeError
  end.

(** [v.get(key)], a method of dictionaries only. *)
Definition dict_get (v : JSON) (key : string) : Outcome JSON :=
  match v with
  | JObj fields => Returns (from_option id JNull (dict_lookup key fields))
  | _ => Raises AttributeError
  end.

(** The items of a list of strings. *)
Fixpoint strings_of (items : list JSON) : Outcome (list string) :=
  match items with
  | [] => Returns []
  | JStr s :: items' =>
      match strings_of items' with
      | Returns l => Returns (s :: l)
      | Raises e => Raises e
      end
  | _ :: _ => Raises TypeError
  end.

Fixpoint chars (s : string) : list string :=
  match s with
  | EmptyString => []
  | String c s' => String c EmptyString :: chars s'
  end.

(** [sep.join(v)]: [v] is iterated, and every item has to be a string.  A
    string gives its characters and a dictionary its keys. *)
Definition join (sep : string) (v : JSON) : Outcome (string) :=
  match v with
  | JArr items => l ← strings_of items; mret (String.concat sep l)
  | JStr s => Returns (String.concat sep (chars s))
  | JObj fields => Returns (String.concat sep (map fst fields))
  | JNull | JBool _ | JInt _ => Raises TypeError
  end.

(** [items.remove(x)] takes out the first item equal to [x]. *)
Fixpoint remove_first (x : string) (items : list JSON) : list JSON :=
  match items with
  | [] => []
  | v :: items' => if is_str x v then items' else v :: remove_first x items'
  end.

(** A Python value is a reference to an object.  The values [_get] hands
    out are objects of the two loaded documents, or [None]; a reference
    says where the object sits: under [group] (and [key]) of [self.config]
    or of [self.default].

    A reference is read in the documents the object holds now.  This is
    the object the attribute refers to as long as the attribute was
    assigned after the documents were loaded, which is so for every object
    that [__init__] has returned on.  When [__init__] is run again and
    raises after it has loaded a document, the attributes it has not
    reached refer in the code to lists of the documents loaded before;
    these objects are gone from the record, so the attributes of an object
    in that state are not described. *)
Inductive Ref :=
| InConfig (group : string) (key : option string)
| InDefault (group : string) (key : option string)
| PyNone.

Record t := mk {
  config : JSON;
  default : JSON;
  prefixes : Ref;
  extensions_enabled : Ref;
  extensions_disabled : Ref
}.

Definition set_config (v : JSON) (self : t) : t :=
  mk v (default self) (prefixes self) (extensions_enabled self) (extensions_disabled self).
Definition set_default (v : JSON) (self : t) : t :=
  mk (config self) v (prefixes self) (extensions_enabled self) (extensions_disabled self).
Definition set_prefixes (r : Ref) (self : t) : t :=
  mk (config self) (default self) r (extensions_enabled self) (extensions_disabled self).
Definition set_extensions_enabled (r : Ref) (self : t) : t :=
  mk (config self) (default self) (prefixes self) r (extensions_disabled self).
Definition set_extensions_disabled (r : Ref) (self : t) : t :=
  mk (config self) (default self) (prefixes self) (extensions_enabled self) r.

(** The object at [group] (and [key]) of a document. *)
Definition at_path (tree : JSON) (group : string) (key : option string) : JSON :=
  match tree with
  | JObj fields =>
      match dict_lookup group fields, key with
      | Some v, None => v
      | Some (JObj fields'), Some k => from_option id JNull (dict_lookup k fields')
      | _, _ => JNull
      end
  | _ => JNull
  end.

(** The object at [group] (and [key]) of a document changed in place. *)
Definition alter_path (f : JSON -> JSON) (tree : JSON) (group : string) (key : option string)
  : JSON :=
  match tree with
  | JObj fields =>
      JObj (dict_alter
              (fun v =>
                 match key, v with
                 | None, _ => f v
                 | Some k, JObj fields' => JObj (dict_alter f k fields')
                 | Some _, _ => v
                 end)
              group fields)
  | _ => tree
  end.

(** [tree[group][key] = v] *)
Definition setitem_path (tree : JSON) (group key : string) (v : JSON) : JSON :=
  match tree with
  | JObj fields =>
      JObj (dict_alter
              (fun section =>
                 match section with
                 | JObj fields' => JObj (dict_set key v fields')
                 | _ => section
                 end)
              group fields)
  | _ => tree
  end.

(** The object a reference points to. *)
Definition deref (self : t) (r : Ref) : JSON :=
  match r with
  | InConfig group key => at_path (config self) group key
  | InDefault group key => at_path (default self) group key
  | PyNone => JNull
  end.

(** The object a reference points to changed in place: every reference to
    it sees the change. *)
Definition mutate (r : Ref) (f : JSON -> JSON) (self : t) : t :=
  match r with
  | InConfig group key => set_config (alter_path f (config self) group key) self
  | InDefault group key => set_default (alter_path f (default self) group key) self
  | PyNone => self
  end.

Definition _get (self : t) (group : string) (key : option string) : Outcome Ref :=
  match key with
  | None =>
      in_config ← contains (config self) group;
      if in_config : bool then
        getitem (config self) group ;; mret (InConfig group None)
      else
        in_default ← contains (default self) group;
        if in_default : bool then
          getitem (default self) group ;; mret (InDefault group None)
        else mret PyNone
  | Some k =>
      in_config ←
        (has_group ← contains (config self) group;
         if has_group : bool then
           section ← getitem (config self) group;
           contains section k
         else mret false);
      if in_config : bool then
        section ← getitem (config self) group;
        getitem section k ;; mret (InConfig group key)
      else
        in_default ←
          (has_group ← contains (default self) group;
           if has_group : bool then
             section ← getitem (default self) group;
             contains section k
           else mret false);
        if in_default : bool then
          section ← getitem (default self) group;
          getitem section k ;; mret (InDefault group key)
        else mret PyNone
  end.

(** The value of [self._get(group, key)]. *)
Definition _get_value (self : t) (group : string) (key : option string) : Outcome JSON :=
  r ← _get self group key; mret (deref self r).

Definition bot_token (self : t) : Outcome JSON := _get_value self "bot" (Some "token").
Definition bot_owner (self : t) : Outcome JSON := _get_value self "bot" (Some "owner").
Definition bot_log_channel_id (self : t) : Outcome JSON :=
  _get_value self "bot" (Some "log_channel_id").
Definition color (self : t) : Outcome JSON := _get_value self "bot" (Some "color").
Definition logo_url (self : t) : Outcome JSON := _get_value self "bot" (Some "logo_url").

Definition debug (self : t) : Outcome bool :=
  v ← _get_value self "bot" (Some "debug");
  mret (is_str "True" v).

Definition reddit (self : t) : Outcome JSON := _get_value self "reddit" None.
Definition openai (self : t) : Outcome JSON := _get_value self "openai" None.

(** ** Methods that change the object, the files or the terminal *)

(** The files are given by what [json.load] reads from them. *)
Record Env := mkEnv {
  self : t;
  files : gmap string JSON;
  stdout : list string
}.

Definition M (A : Type) : Type := Env -> Outcome A * Env.

#[global] Instance M_ret : MRet M := fun A a e => (Returns a, e).

#[global] Instance M_bind : MBind M := fun A B f m e =>
  match m e with
  | (Returns a, e1) => f a e1
  | (Raises x, e1) => (Raises x, e1)
  end.

#[global] Instance M_throw : MThrow Error M := fun A x e => (Raises x, e).

Definition get_self : M t := fun e => (Returns (self e), e).
Definition modify_self (f : t -> t) : M unit := fun e =>
  (Returns tt, mkEnv (f (self e)) (files e) (stdout e)).
Definition print (text : string) : M unit := fun e =>
  (Returns tt, mkEnv (self e) (files e) (stdout e ++ [text])).
Definition lift {A} (o : Outcome A) : M A := fun e => (o, e).

(** [json.dump(doc, open(path, "w"))] *)
Definition write_json (path : string) (doc : JSON) : M unit := fun e =>
  (Returns tt, mkEnv (self e) (<[path := doc]> (files e)) (stdout e)).

(** [colorama.Fore.YELLOW] *)
Definition Fore_YELLOW : string := String (Ascii.ascii_of_nat 27) "[33m".

(** An object before [__init__] has given it its attributes. *)
Definition blank : t := mk JNull JNull PyNone PyNone PyNone.

Definition __init__ : M unit :=
  e ← (fun e => (Returns e, e));
  match files e !! "config/config.json" with
  | None =>
      print "Configuration file not found." ;;
      mthrow (SystemExit 1)
  | Some config_doc =>
      modify_self (set_config config_doc) ;;
      match files e !! "config/default.json" with
      | None =>
          print "Configuration file not found." ;;
          mthrow (SystemExit 1)
      | Some default_doc =>
          modify_self (set_default default_doc) ;;
          s ← get_self;
          r ← lift (_get s "bot" (Some "prefixes"));
          modify_self (set_prefixes r) ;;
          s ← get_self;
          r ← lift (_get s "extensions" (Some "enabled"));
          modify_self (set_extensions_enabled r) ;;
          s ← get_self;
          names ← lift (join ", " (deref s (extensions_enabled s)));
          print (Fore_YELLOW +:+ "Enabled extensions: " +:+ names) ;;
          s ← get_self;
          r ← lift (_get s "extensions" (Some "disabled"));
          modify_self (set_extensions_disabled r) ;;
          s ← get_self;
          names ← lift (join ", " (deref s (extensions_disabled s)));
          print (Fore_YELLOW +:+ "Disabled extensions: " +:+ names)
      end
  end.

Definition reload : M unit := __init__.

Definition save : M unit :=
  s ← get_self;
  bot ← lift (dict_get (config s) "bot");
  stored ← lift (dict_get bot "prefixes");
  (if negb (truthy stored) then
     modify_self (fun s =>
       set_config (setitem_path (config s) "bot" "prefixes" (deref s (prefixes s))) s)
   else mret tt) ;;
  s ← get_self;
  write_json "config.json" (config s).

(** [l.remove(x)] on the object [r] refers to. *)
Definition list_remove (r : Ref) (x : string) : M unit :=
  s ← get_self;
  match deref s r with
  | JArr items =>
      if existsb (is_str x) items
      then modify_self (mutate r (fun _ => JArr (remove_first x items)))
      else mthrow ValueError
  | _ => mthrow AttributeError
  end.

(** [l.append(x)] on the object [r] refers to. *)
Definition list_append (r : Ref) (x : string) : M unit :=
  s ← get_self;
  match deref s r with
  | JArr items => modify_self (mutate r (fun _ => JArr (items ++ [JStr x])))
  | _ => mthrow AttributeError
  end.

Definition enable_extension (extension : string) : M unit :=
  s ← get_self;
  is_disabled ← lift (contains (deref s (extensions_disabled s)) extension);
  if is_disabled : bool then
    list_remove (extensions_disabled s) extension ;;
    list_append (extensions_enabled s) extension ;;
    save
  else
    is_enabled ← lift (contains (deref s (extensions_enabled s)) extension);
    if is_enabled : bool then print "Extension is already enabled."
    else print "Extension {extension} not found".

Definition disable_extension (extension : string) : M unit :=
  s ← get_self;
  is_enabled ← lift (contains (deref s (extensions_enabled s)) extension);
  if is_enabled : bool then
    list_remove (extensions_enabled s) extension ;;
    list_append (extensions_disabled s) extension ;;
    save
  else
    is_disabled ← lift (contains (deref s (extensions_disabled s)) extension);
    if is_disabled : bool then print "Extension is already disabled."
    else print "Extension {extension} not found".

(** ** Reading documents *)

(** The value stored under [key] of the dictionary stored under [group] of
    a document, if both are there. *)
Definition item2 (doc : JSON) (group key : string) : option JSON :=
  match doc with
  | JObj fields =>
      match dict_lookup group fields with
      | Some (JObj fields') => dict_lookup key fields'
      | _ => None
      end
  | _ => None
  end.

Definition is_dict (v : JSON) : bool :=
  match v with
  | JObj _ => true
  | _ => false
  end.

(** A document that is a dictionary all of whose values are
    dictionaries, as the bot's configuration files are. *)
Definition dict_of_dicts (doc : JSON) : bool :=
  match doc with
  | JObj fields => forallb (fun entry => is_dict (snd entry)) fields
  | _ => false
  end.

(** Where the two documents have the value of [group] and [key]: in the
    first, else in the second, else nowhere. *)
Definition origin (c d : JSON) (group key : string) : Ref :=
  match item2 c group key with
  | Some _ => InConfig group (Some key)
  | None =>
      match item2 d group key with
      | Some _ => InDefault group (Some key)
      | None => PyNone
      end
  end.

(** A method that leaves every file but [config.json] as it is, however
    it ends. *)
Definition keeps_other_files {A} (m : M A) : Prop :=
  forall (e : Env) (path : string),
    path <> "config.json" -> files (snd (m e)) !! path = files e !! path.

(** A reference to the value under [group] and [key] of one of the two
    documents. *)
Definition refers_to (r : Ref) (group key : string) : Prop :=
  r = InConfig group (Some key) \/ r = InDefault group (Some key).

(** [Config()]: a new object run through [__init__]. *)
Definition new (files : gmap string JSON) (stdout : list string) : Outcome t * Env :=
  match __init__ (mkEnv blank files stdout) with
  | (Returns _, e) => (Returns (self e), e)
  | (Raises x, e) => (Raises x, e)
  end.

End Config.

(** ** Documents used as concrete inputs *)

Definition sample_config : Config.JSON :=
  Config.JObj
    [("bot", Config.JObj [("token", Config.JStr "abc");
                          ("debug", Config.JBool true);
                          ("owner", Config.JNull)]);
     ("extensions", Config.JObj [("enabled", Config.JArr [Config.JStr "music"]);
                                 ("disabled", Config.JArr [Config.JStr "fun";
                                                           Config.JStr "mod"])])].

Definition sample_default : Config.JSON :=
  Config.JObj
    [("bot", Config.JObj [("prefixes", Config.JArr [Config.JStr "!"]);
                          ("debug", Config.JStr "True");
                          ("owner", Config.JStr "nobody");
                          ("color", Config.JStr "0x00FF00")]);
     ("extensions", Config.JObj [("enabled", Config.JArr []);
                                 ("disabled", Config.JArr [])]);
     ("reddit", Config.JObj [])].

Definition sample_files : gmap string Config.JSON :=
  {["config/config.json" := sample_config; "config/default.json" := sample_default]}.

(** The object [Config()] is on [sample_files]. *)
Definition sample_self : Config.t :=
  Config.mk sample_config sample_default
    (Config.InDefault "bot" (Some "prefixes"))
    (Config.InConfig "extensions" (Some "enabled"))
    (Config.InConfig "extensions" (Some "disabled")).

(** * Properties *)

(** ** The playing check *)

Lemma _is_playing_run (s : VoiceState.t) :
  Music._is_playing s =
    if VoiceState.is_playing s then (Ok true, s, [])
    else (Ok false, s, [Send "Nothing is playing."]).
Proof.
  unfold Music._is_playing, mbind, VoiceState.Cmd_bind; simpl.
  destruct (VoiceState.is_playing s); reflexivity.
Qed.

Lemma is_playing_idle (s : VoiceState.t) :
  VoiceState.playback s = Idle -> VoiceState.is_playing s = false.
Proof. unfold VoiceState.is_playing; intros ->; reflexivity. Qed.

Lemma is_playing_not_idle (s : VoiceState.t) :
  VoiceState.playback s <> Idle -> VoiceState.is_playing s = true.
Proof. unfold VoiceState.is_playing; destruct (VoiceState.playback s); congruence. Qed.

(** A guarded command run from [Idle] only answers that nothing is
    playing. *)
Lemma guarded_idle (body : VoiceState.Cmd unit) (s : VoiceState.t) :
  VoiceState.playback s = Idle ->
  (playing ← Music._is_playing; if playing : bool then body else mret tt) s
    = (Ok tt, s, [Send "Nothing is playing."]).
Proof.
  intros Hidle. unfold mbind, VoiceState.Cmd_bind at 1.
  rewrite _is_playing_run, (is_playing_idle s Hidle). reflexivity.
Qed.

(** A guarded command run from [Playing] or [Paused] is its body. *)
Lemma guarded_playing (body : VoiceState.Cmd unit) (s : VoiceState.t) :
  VoiceState.playback s <> Idle ->
  (playing ← Music._is_playing; if playing : bool then body else mret tt) s = body s.
Proof.
  intros Hplay. unfold mbind, VoiceState.Cmd_bind at 1.
  rewrite _is_playing_run, (is_playing_not_idle s Hplay).
  destruct (body s) as [[r s'] out]. reflexivity.
Qed.

(** Runs a command on a session whose playback state [H] gives. *)
Ltac by_playback s H :=
  destruct s as [v q c p l vol]; simpl in H; subst p; reflexivity.

(** ** remove *)

(** What [SongQueue.remove] does at an index inside the queue. *)
Lemma songs_remove_run (s : VoiceState.t) (index : Z) (x : Track) :
  0 <= index ->
  VoiceState.songs s !! Z.to_nat index = Some x ->
  VoiceState.songs_remove index s
    = (Ok x,
       VoiceState.mk (VoiceState.voice s) (delete (Z.to_nat index) (VoiceState.songs s))
         (VoiceState.current s) (VoiceState.playback s) (VoiceState.loop s)
         (VoiceState.volume s),
       []).
Proof.
  intros Hpos Hx. unfold VoiceState.songs_remove.
  destruct (Z.ltb_spec index 0) as [Hneg | _]; [lia |].
  rewrite Hx. reflexivity.
Qed.

(** C1.  With [n] songs queued, [remove i] for [i < 1] or [i > n] fails in
    the queue with an index error, is answered by "Invalid position." and
    leaves the session, and so the queue, as it was.  For [1 <= i <= n] the
    queue gives up the song at position [i]: the queue that is left is one
    shorter, it holds the songs before position [i] at their places and the
    songs after it one place earlier, and nothing else of the session has
    changed; the command confirms with the check mark and drops the song
    it was handed.  The lower bound is that of the queue: the command only
    subtracts one from the index. *)
Theorem remove_by_position (s : VoiceState.t) (i : Z) :
  let q := VoiceState.songs s in
  let n := Z.of_nat (length q) in
  ((i < 1 \/ n < i) ->
     VoiceState.songs_remove (i - 1) s = (Raise IndexError, s, []) /\
     Music.remove i s = (Ok tt, s, [Send "Invalid position."]) /\
     VoiceState.songs (snd (fst (Music.remove i s))) = q)
  /\
  (1 <= i <= n ->
     exists x,
       q !! Z.to_nat (i - 1) = Some x /\
       let left := take (Z.to_nat (i - 1)) q ++ drop (Z.to_nat i) q in
       let s' := VoiceState.mk (VoiceState.voice s) left (VoiceState.current s)
                   (VoiceState.playback s) (VoiceState.loop s) (VoiceState.volume s) in
       VoiceState.songs_remove (i - 1) s = (Ok x, s', []) /\
       Music.remove i s = (Ok tt, s', [AddReaction CheckMark]) /\
       VoiceState.songs (snd (fst (Music.remove i s))) = left /\
       Z.of_nat (length left) = n - 1 /\
       (forall k : nat, Z.of_nat k < i - 1 -> left !! k = q !! k) /\
       (forall k : nat, i - 1 <= Z.of_nat k -> left !! k = q !! S k)).
Proof.
  intros q n; split.
  - intros Hout.
    assert (Hq : VoiceState.songs_remove (i - 1) s = (Raise IndexError, s, [])).
    { unfold VoiceState.songs_remove.
      destruct (Z.ltb_spec (i - 1) 0) as [Hneg | Hpos]; [reflexivity |].
      rewrite lookup_ge_None_2; [reflexivity |]. subst n q. lia. }
    assert (Hrun : Music.remove i s = (Ok tt, s, [Send "Invalid position."])).
    { unfold Music.remove, VoiceState.try_except, mbind, VoiceState.Cmd_bind.
      rewrite Hq. reflexivity. }
    split; [exact Hq |]. split; [exact Hrun |]. rewrite Hrun. reflexivity.
  - intros Hin.
    destruct (lookup_lt_is_Some_2 q (Z.to_nat (i - 1))) as [x Hx]; [subst n; lia |].
    exists x. split; [exact Hx |]. cbv zeta.
    assert (Hleft : take (Z.to_nat (i - 1)) q ++ drop (Z.to_nat i) q
                    = delete (Z.to_nat (i - 1)) q).
    { rewrite delete_take_drop.
      replace (S (Z.to_nat (i - 1))) with (Z.to_nat i) by lia. reflexivity. }
    rewrite Hleft.
    assert (Hq : VoiceState.songs_remove (i - 1) s
                 = (Ok x,
                    VoiceState.mk (VoiceState.voice s) (delete (Z.to_nat (i - 1)) q)
                      (VoiceState.current s) (VoiceState.playback s) (VoiceState.loop s)
                      (VoiceState.volume s),
                    [])).
    { apply songs_remove_run; [lia | exact Hx]. }
    assert (Hrun : Music.remove i s
                   = (Ok tt,
                      VoiceState.mk (VoiceState.voice s) (delete (Z.to_nat (i - 1)) q)
                        (VoiceState.current s) (VoiceState.playback s) (VoiceState.loop s)
                        (VoiceState.volume s),
                      [AddReaction CheckMark])).
    { unfold Music.remove, VoiceState.try_except, mbind, VoiceState.Cmd_bind.
      rewrite Hq. reflexivity. }
    split; [exact Hq |]. split; [exact Hrun |].
    split; [rewrite Hrun; reflexivity |].
    split.
    { rewrite length_delete by (rewrite Hx; eauto).
      pose proof (lookup_lt_Some _ _ _ Hx) as Hlt. subst n. lia. }
    split.
    + intros k Hk. apply list_lookup_delete_lt. lia.
    + intros k Hk. apply list_lookup_delete_ge. lia.
Qed.

(** Of the three songs [a], [b], [c], position 2 leaves [a], [c] and the
    session otherwise as it was; positions 5 and 0 are turned away. *)
Lemma remove_by_position_witness :
  Music.remove 5 playing_session
    = (Ok tt, playing_session, [Send "Invalid position."]) /\
  Music.remove 0 playing_session
    = (Ok tt, playing_session, [Send "Invalid position."]) /\
  Music.remove 2 playing_session
    = (Ok tt,
       VoiceState.mk (Some 7) [song_a; song_c] (Some song_now) Playing false 0.5,
       [AddReaction CheckMark]) /\
  VoiceState.songs (snd (fst (Music.remove 2 playing_session))) = [song_a; song_c].
Proof.
  split; [| split; [| split]].
  - apply (remove_by_position playing_session 5). right. simpl. lia.
  - apply (remove_by_position playing_session 0). left. lia.
  - destruct (remove_by_position playing_session 2) as [_ Hin].
    destruct Hin as [x [Hx [_ [Hrun _]]]]; [simpl; lia |].
    exact Hrun.
  - destruct (remove_by_position playing_session 2) as [_ Hin].
    destruct Hin as [x [Hx [_ [_ [Hsongs _]]]]]; [simpl; lia |].
    exact Hsongs.
Defined.

(** ** pause and resume *)

(** C5.  [pause] goes through in [Playing] and nowhere else: there it
    pauses the stream, lands in [Paused] and reacts with the pause button;
    from [Paused] it answers "Already paused." and from [Idle] "Nothing is
    playing.", and in both the session stays as it was. *)
Theorem pause_only_from_playing (s : VoiceState.t) :
  (VoiceState.playback s = Playing ->
     Music.pause s
       = (Ok tt, VoiceState.set_playback Paused s, [StreamPaused; AddReaction PauseButton]) /\
     VoiceState.playback (VoiceState.set_playback Paused s) = Paused)
  /\ (VoiceState.playback s = Paused ->
        Music.pause s = (Ok tt, s, [Send "Already paused."]))
  /\ (VoiceState.playback s = Idle ->
        Music.pause s = (Ok tt, s, [Send "Nothing is playing."]))
  /\ (In (AddReaction PauseButton) (snd (Music.pause s)) <-> VoiceState.playback s = Playing).
Proof.
  assert (Hplaying : VoiceState.playback s = Playing ->
            Music.pause s = (Ok tt, VoiceState.set_playback Paused s,
                             [StreamPaused; AddReaction PauseButton])).
  { intros H. unfold Music.pause. rewrite guarded_playing by congruence.
    by_playback s H. }
  assert (Hpaused : VoiceState.playback s = Paused ->
            Music.pause s = (Ok tt, s, [Send "Already paused."])).
  { intros H. unfold Music.pause. rewrite guarded_playing by congruence.
    by_playback s H. }
  assert (Hidle : VoiceState.playback s = Idle ->
            Music.pause s = (Ok tt, s, [Send "Nothing is playing."])).
  { intros H. unfold Music.pause. apply guarded_idle, H. }
  split; [intros H; split; [exact (Hplaying H) | reflexivity] |].
  split; [exact Hpaused |]. split; [exact Hidle |]. split.
  - intros Hin. destruct (VoiceState.playback s) eqn:E; [| reflexivity |].
    + rewrite (Hidle eq_refl) in Hin. simpl in Hin. destruct Hin as [Hin | []]. discriminate Hin.
    + rewrite (Hpaused eq_refl) in Hin. simpl in Hin. destruct Hin as [Hin | []]. discriminate Hin.
  - intros H. rewrite (Hplaying H). simpl. right. left. reflexivity.
Qed.

Lemma pause_only_from_playing_witness :
  Music.pause playing_session
    = (Ok tt, paused_session, [StreamPaused; AddReaction PauseButton]) /\
  Music.pause paused_session = (Ok tt, paused_session, [Send "Already paused."]) /\
  Music.pause idle_session = (Ok tt, idle_session, [Send "Nothing is playing."]).
Proof.
  split; [| split].
  - apply (pause_only_from_playing playing_session). reflexivity.
  - apply (pause_only_from_playing paused_session). reflexivity.
  - apply (pause_only_from_playing idle_session). reflexivity.
Defined.

(** C6, as it is worded, at a session that is not paused because nothing
    plays: [resume] does not answer "Not paused." there. *)
Lemma resume_idle_not_reported_as_not_paused :
  VoiceState.playback idle_session <> Paused /\
  Music.resume idle_session = (Ok tt, idle_session, [Send "Nothing is playing."]) /\
  ~ In (Send "Not paused.") (snd (Music.resume idle_session)).
Proof.
  split; [discriminate |]. split; [reflexivity |].
  simpl. intros [H | []]. discriminate H.
Qed.

(** C6, amended.  [resume] goes through in [Paused] and nowhere else: there
    it resumes the stream, lands in [Playing] and reacts with the play
    button; from [Playing] it answers "Not paused." and from [Idle]
    "Nothing is playing.", and in both the session stays as it was. *)
Theorem resume_only_from_paused (s : VoiceState.t) :
  (VoiceState.playback s = Paused ->
     Music.resume s
       = (Ok tt, VoiceState.set_playback Playing s, [StreamResumed; AddReaction PlayButton]) /\
     VoiceState.playback (VoiceState.set_playback Playing s) = Playing)
  /\ (VoiceState.playback s = Playing ->
        Music.resume s = (Ok tt, s, [Send "Not paused."]))
  /\ (VoiceState.playback s = Idle ->
        Music.resume s = (Ok tt, s, [Send "Nothing is playing."]))
  /\ (In (AddReaction PlayButton) (snd (Music.resume s)) <-> VoiceState.playback s = Paused).
Proof.
  assert (Hpaused : VoiceState.playback s = Paused ->
            Music.resume s = (Ok tt, VoiceState.set_playback Playing s,
                              [StreamResumed; AddReaction PlayButton])).
  { intros H. unfold Music.resume. rewrite guarded_playing by congruence.
    by_playback s H. }
  assert (Hplaying : VoiceState.playback s = Playing ->
            Music.resume s = (Ok tt, s, [Send "Not paused."])).
  { intros H. unfold Music.resume. rewrite guarded_playing by congruence.
    by_playback s H. }
  assert (Hidle : VoiceState.playback s = Idle ->
            Music.resume s = (Ok tt, s, [Send "Nothing is playing."])).
  { intros H. unfold Music.resume. apply guarded_idle, H. }
  split; [intros H; split; [exact (Hpaused H) | reflexivity] |].
  split; [exact Hplaying |]. split; [exact Hidle |]. split.
  - intros Hin. destruct (VoiceState.playback s) eqn:E; [| | reflexivity].
    + rewrite (Hidle eq_refl) in Hin. simpl in Hin. destruct Hin as [Hin | []]. discriminate Hin.
    + rewrite (Hplaying eq_refl) in Hin. simpl in Hin. destruct Hin as [Hin | []]. discriminate Hin.
  - intros H. rewrite (Hpaused H). simpl. right. left. reflexivity.
Qed.

Lemma resume_only_from_paused_witness :
  Music.resume paused_session
    = (Ok tt, playing_session, [StreamResumed; AddReaction PlayButton]) /\
  Music.resume playing_session = (Ok tt, playing_session, [Send "Not paused."]) /\
  Music.resume idle_session = (Ok tt, idle_session, [Send "Nothing is playing."]).
Proof.
  split; [| split].
  - apply (resume_only_from_paused paused_session). reflexivity.
  - apply (resume_only_from_paused playing_session). reflexivity.
  - apply (resume_only_from_paused idle_session). reflexivity.
Defined.

(** ** stop *)

(** C2, as it is worded, at a session in [Idle]: the command is turned
    away with "Nothing is playing." and [VoiceState.stop] is not run. *)
Lemma stop_refused_when_idle :
  VoiceState.playback idle_session = Idle /\
  Music.stop idle_session = (Ok tt, idle_session, [Send "Nothing is playing."]) /\
  ~ In (AddReaction StopButton) (snd (Music.stop idle_session)).
Proof.
  split; [reflexivity |]. split; [reflexivity |].
  simpl. intros [H | []]. discriminate H.
Qed.

(** C2, amended.  From [Playing] and from [Paused], [stop] ends in [Idle]
    with an empty queue and no current track, stops the active stream
    exactly once, keeps the voice connection, and reacts with the stop
    button.  From [Idle] it answers "Nothing is playing.", stops no stream
    and leaves the session as it was. *)
Theorem stop_when_playing (s : VoiceState.t) :
  (VoiceState.playback s = Playing \/ VoiceState.playback s = Paused ->
     let s' := VoiceState.mk (VoiceState.voice s) [] None Idle
                 (VoiceState.loop s) (VoiceState.volume s) in
     Music.stop s = (Ok tt, s', [StreamStopped; AddReaction StopButton]) /\
     stream_stops (snd (Music.stop s)) = 1%nat /\
     VoiceState.playback s' = Idle /\
     VoiceState.songs s' = [] /\
     VoiceState.current s' = None /\
     VoiceState.voice s' = VoiceState.voice s)
  /\
  (VoiceState.playback s = Idle ->
     Music.stop s = (Ok tt, s, [Send "Nothing is playing."]) /\
     stream_stops (snd (Music.stop s)) = 0%nat).
Proof.
  split.
  - intros Hplay s'.
    assert (Hne : VoiceState.playback s <> Idle) by (destruct Hplay; congruence).
    assert (Hrun : Music.stop s = (Ok tt, s', [StreamStopped; AddReaction StopButton])).
    { unfold Music.stop. rewrite guarded_playing by exact Hne.
      unfold mbind, VoiceState.Cmd_bind, VoiceState.stop.
      rewrite (is_playing_not_idle s Hne). reflexivity. }
    rewrite Hrun. repeat split.
  - intros Hidle.
    assert (Hrun : Music.stop s = (Ok tt, s, [Send "Nothing is playing."])).
    { unfold Music.stop. apply guarded_idle, Hidle. }
    rewrite Hrun. split; reflexivity.
Qed.

Lemma stop_when_playing_witness :
  Music.stop paused_session
    = (Ok tt, VoiceState.mk (Some 7) [] None Idle false 0.5,
       [StreamStopped; AddReaction StopButton]) /\
  Music.stop idle_session = (Ok tt, idle_session, [Send "Nothing is playing."]).
Proof.
  split.
  - apply (stop_when_playing paused_session). right. reflexivity.
  - apply (stop_when_playing idle_session). reflexivity.
Defined.

(** ** volume *)

(** The float stored for a volume the command accepts is a volume between
    0.0 and 2.0. *)
Lemma truediv_100_range (v : Z) :
  0 <= v <= 200 ->
  (0 <=? truediv v 100)%float = true /\ (truediv v 100 <=? 2)%float = true.
Proof.
  intros Hv.
  assert (Hall : forallb (fun n => (0 <=? truediv (Z.of_nat n) 100)%float
                                   && (truediv (Z.of_nat n) 100 <=? 2)%float)
                         (seq 0 201) = true)
    by (vm_compute; reflexivity).
  rewrite forallb_forall in Hall.
  specialize (Hall (Z.to_nat v)). rewrite Z2Nat.id in Hall by lia.
  apply andb_true_iff, Hall, in_seq. lia.
Qed.

(** The float stored for a volume the command accepts is a float nearest
    to the hundredth part of the volume. *)
Lemma truediv_100_nearest (v : Z) :
  0 <= v <= 200 -> nearest_float (truediv v 100) v 100 = true.
Proof.
  intros Hv.
  assert (Hall : forallb (fun n => nearest_float (truediv (Z.of_nat n) 100) (Z.of_nat n) 100)
                         (seq 0 201) = true)
    by (vm_compute; reflexivity).
  rewrite forallb_forall in Hall.
  specialize (Hall (Z.to_nat v)). rewrite Z2Nat.id in Hall by lia.
  apply Hall, in_seq. lia.
Qed.

(** C4, as it is worded, at a session in [Idle] and the volume 150: the
    command is turned away with "Nothing is playing." and the volume stays
    at one half. *)
Lemma volume_refused_when_idle :
  VoiceState.playback idle_session = Idle /\
  0 <= 150 <= 200 /\
  Music.volume (Some 150) idle_session
    = (Ok tt, idle_session, [Send "Nothing is playing."]) /\
  VoiceState.volume (snd (fst (Music.volume (Some 150) idle_session))) = 0.5%float /\
  PrimFloat.eqb (VoiceState.volume (snd (fst (Music.volume (Some 150) idle_session)))) 1.5
    = false.
Proof.
  split; [reflexivity |]. split; [lia |]. split; [reflexivity |].
  split; vm_compute; reflexivity.
Qed.

(** C4, amended.  While something plays ([Playing] or [Paused]), a volume
    [v] with [0 <= v <= 200] sets the session volume to the float [v / 100],
    a float nearest to the hundredth part of [v], which lies between 0.0
    and 2.0 and is 1.5 for 150, changes nothing else of the session, and
    is answered with that float times 100; a [v] below
    0 or above 200 is answered with "Volume must be between 0 and 200 %"
    and changes nothing.  From [Idle] the command answers "Nothing is
    playing." for every [v] and changes nothing. *)
Theorem volume_set_when_playing (s : VoiceState.t) (v : Z) :
  (VoiceState.playback s <> Idle -> 0 <= v <= 200 ->
     let s' := VoiceState.set_volume (truediv v 100) s in
     Music.volume (Some v) s
       = (Ok tt, s', [SendVolume (float_mul_int (truediv v 100) 100)]) /\
     VoiceState.volume s' = truediv v 100 /\
     nearest_float (VoiceState.volume s') v 100 = true /\
     (0 <=? VoiceState.volume s')%float = true /\
     (VoiceState.volume s' <=? 2)%float = true /\
     (v = 150 -> VoiceState.volume s' = 1.5%float) /\
     VoiceState.voice s' = VoiceState.voice s /\
     VoiceState.songs s' = VoiceState.songs s /\
     VoiceState.current s' = VoiceState.current s /\
     VoiceState.playback s' = VoiceState.playback s /\
     VoiceState.loop s' = VoiceState.loop s)
  /\ (VoiceState.playback s <> Idle -> v < 0 \/ 200 < v ->
        Music.volume (Some v) s = (Ok tt, s, [Send "Volume must be between 0 and 200 %"]))
  /\ (VoiceState.playback s = Idle ->
        Music.volume (Some v) s = (Ok tt, s, [Send "Nothing is playing."])).
Proof.
  split; [| split].
  - intros Hplay Hv s'. split.
    + unfold Music.volume. rewrite guarded_playing by exact Hplay.
      replace ((0 <=? v) && (v <=? 200)) with true
        by (symmetry; apply andb_true_intro; split; apply Z.leb_le; lia).
      reflexivity.
    + split; [reflexivity |].
      split; [apply truediv_100_nearest, Hv |].
      split; [apply truediv_100_range, Hv |].
      split; [apply truediv_100_range, Hv |].
      split; [intros ->; reflexivity |].
      repeat split.
  - intros Hplay Hv. unfold Music.volume. rewrite guarded_playing by exact Hplay.
    replace ((0 <=? v) && (v <=? 200)) with false; [reflexivity |].
    symmetry. apply andb_false_iff.
    destruct Hv; [left; apply Z.leb_gt | right; apply Z.leb_gt]; lia.
  - intros Hidle. unfold Music.volume. apply guarded_idle, Hidle.
Qed.

(** At 150 the volume becomes 1.5 and the answer is 150.0; at 7 the volume
    becomes the float nearest to 0.07 and the answer is that float times
    100, which Python prints as 7.000000000000001. *)
Lemma volume_set_when_playing_witness :
  Music.volume (Some 150) playing_session
    = (Ok tt, VoiceState.mk (Some 7) [song_a; song_b; song_c] (Some song_now) Playing false 1.5,
       [SendVolume 150]) /\
  Music.volume (Some 7) playing_session
    = (Ok tt,
       VoiceState.mk (Some 7) [song_a; song_b; song_c] (Some song_now) Playing false
         0x1.1eb851eb851ecp-4,
       [SendVolume 0x1.c000000000001p+2]) /\
  (0x1.c000000000001p+2 =? 7)%float = false /\
  Music.volume (Some 250) playing_session
    = (Ok tt, playing_session, [Send "Volume must be between 0 and 200 %"]) /\
  Music.volume (Some 150) idle_session
    = (Ok tt, idle_session, [Send "Nothing is playing."]).
Proof.
  split; [| split; [| split; [| split]]].
  - destruct (volume_set_when_playing playing_session 150) as [Hset _].
    destruct Hset as [Hrun _]; [discriminate | lia |].
    rewrite Hrun. vm_compute. reflexivity.
  - destruct (volume_set_when_playing playing_session 7) as [Hset _].
    destruct Hset as [Hrun _]; [discriminate | lia |].
    rewrite Hrun. vm_compute. reflexivity.
  - vm_compute. reflexivity.
  - apply (volume_set_when_playing playing_session 250); [discriminate | right; lia].
  - apply (volume_set_when_playing idle_session 150). reflexivity.
Defined.

(** C10, as it is worded, at a session in [Idle]: [volume] without an
    argument does not report the volume there. *)
Lemma volume_not_reported_when_idle :
  VoiceState.playback idle_session = Idle /\
  Music.volume None idle_session
    = (Ok tt, idle_session, [Send "Nothing is playing."]) /\
  (forall percent, ~ In (SendVolume percent) (snd (Music.volume None idle_session))).
Proof.
  split; [reflexivity |]. split; [reflexivity |].
  simpl. intros percent [H | []]. discriminate H.
Qed.

(** C10, amended.  [volume] without an argument leaves every field of the
    session as it was, in every state; while something plays ([Playing] or
    [Paused]) it reports the current volume as a percentage, the float
    product of the volume and 100, and from [Idle] it answers "Nothing is
    playing.". *)
Theorem volume_query_frame (s : VoiceState.t) :
  snd (fst (Music.volume None s)) = s
  /\ (VoiceState.playback s <> Idle ->
        Music.volume None s
          = (Ok tt, s, [SendVolume (float_mul_int (VoiceState.volume s) 100)]))
  /\ (VoiceState.playback s = Idle ->
        Music.volume None s = (Ok tt, s, [Send "Nothing is playing."])).
Proof.
  assert (Hplay : VoiceState.playback s <> Idle ->
            Music.volume None s
              = (Ok tt, s, [SendVolume (float_mul_int (VoiceState.volume s) 100)])).
  { intros H. unfold Music.volume. rewrite guarded_playing by exact H. reflexivity. }
  assert (Hidle : VoiceState.playback s = Idle ->
            Music.volume None s = (Ok tt, s, [Send "Nothing is playing."])).
  { intros H. unfold Music.volume. apply guarded_idle, H. }
  split; [| split; assumption].
  destruct (VoiceState.playback s) eqn:E.
  - rewrite (Hidle eq_refl). reflexivity.
  - rewrite Hplay by discriminate. reflexivity.
  - rewrite Hplay by discriminate. reflexivity.
Qed.

(** At the volume one half the report is 50.0; at the volume that
    [volume 7] has stored it is the float Python prints as
    7.000000000000001. *)
Lemma volume_query_frame_witness :
  Music.volume None playing_session = (Ok tt, playing_session, [SendVolume 50]) /\
  (let quiet := VoiceState.set_volume (truediv 7 100) playing_session in
   Music.volume None quiet = (Ok tt, quiet, [SendVolume 0x1.c000000000001p+2])) /\
  Music.volume None idle_session = (Ok tt, idle_session, [Send "Nothing is playing."]).
Proof.
  split; [| split].
  - destruct (volume_query_frame playing_session) as [_ [Hplay _]].
    rewrite Hplay by discriminate. vm_compute. reflexivity.
  - cbv zeta.
    destruct (volume_query_frame (VoiceState.set_volume (truediv 7 100) playing_session))
      as [_ [Hplay _]].
    rewrite Hplay by discriminate. vm_compute. reflexivity.
  - apply (volume_query_frame idle_session). reflexivity.
Defined.

(** ** queue *)

Lemma py_slice_from {A} (l : list A) (start n : Z) :
  0 <= start -> 0 <= n ->
  py_slice l start (start + n) = take (Z.to_nat n) (drop (Z.to_nat start) l).
Proof.
  intros Hstart Hn. unfold py_slice, py_bound.
  destruct (Z.ltb_spec start 0) as [? | _]; [lia |].
  destruct (Z.ltb_spec (start + n) 0) as [? | _]; [lia |].
  set (len := Z.of_nat (length l)).
  destruct (Z.le_gt_cases start len) as [Hle | Hgt].
  - rewrite (Z.min_l start len) by exact Hle.
    destruct (Z.le_gt_cases (start + n) len) as [Hfit | Hcut].
    + rewrite (Z.min_l (start + n) len) by exact Hfit.
      f_equal. lia.
    + rewrite (Z.min_r (start + n) len) by lia.
      rewrite !take_ge; [reflexivity | |]; rewrite length_drop; subst len; lia.
  - rewrite (Z.min_r start len), (Z.min_r (start + n) len) by lia.
    rewrite (drop_ge l (Z.to_nat start)) by (subst len; lia).
    rewrite take_nil. replace (len - len) with 0 by lia. reflexivity.
Qed.

Lemma enumerate_shift {A} (l : list A) (start : Z) :
  map (fun '(i, song) => (i + 1, song)) (enumerate l start) = enumerate l (start + 1).
Proof.
  revert start. induction l as [| x l IH]; intros start; simpl.
  - reflexivity.
  - rewrite IH. reflexivity.
Qed.

Lemma length_enumerate {A} (l : list A) (start : Z) :
  length (enumerate l start) = length l.
Proof.
  revert start. induction l as [| x l IH]; intros start; simpl; [reflexivity |].
  rewrite IH. reflexivity.
Qed.

(** The entry shown at place [k] of an enumeration. *)
Lemma enumerate_lookup {A} (l : list A) (start : Z) (k : nat) :
  enumerate l start !! k = (fun x => (start + Z.of_nat k, x)) <$> l !! k.
Proof.
  revert start k. induction l as [| x l IH]; intros start k.
  - reflexivity.
  - destruct k as [| k]; simpl.
    + rewrite Z.add_0_r. reflexivity.
    + rewrite IH. destruct (l !! k); simpl; [| reflexivity].
      do 2 f_equal. lia.
Qed.


(** With songs queued, [queue] answers every page number with one page:
    the slice of the queue is Python's, and the numbers start one after
    the slice's first bound. *)
Lemma queue_run_any (s : VoiceState.t) (page : Z) :
  VoiceState.songs s <> [] ->
  Music.queue page s
    = (Ok tt, s,
       [SendQueue (enumerate (py_slice (VoiceState.songs s) ((page - 1) * 10)
                                       ((page - 1) * 10 + 10))
                             ((page - 1) * 10 + 1))
                  page (ceil_div (Z.of_nat (length (VoiceState.songs s))) 10)]).
Proof.
  intros Hq. unfold Music.queue, mbind, VoiceState.Cmd_bind; simpl.
  destruct (Z.eqb_spec (Z.of_nat (length (VoiceState.songs s))) 0) as [Hlen | _].
  - destruct (VoiceState.songs s); [congruence | simpl in Hlen; lia].
  - rewrite enumerate_shift. reflexivity.
Qed.

Lemma queue_run (s : VoiceState.t) (page : Z) :
  VoiceState.songs s <> [] -> 1 <= page ->
  Music.queue page s
    = (Ok tt, s,
       [SendQueue (enumerate (take 10 (drop (Z.to_nat ((page - 1) * 10)) (VoiceState.songs s)))
                             ((page - 1) * 10 + 1))
                  page (ceil_div (Z.of_nat (length (VoiceState.songs s))) 10)]).
Proof.
  intros Hq Hpage. rewrite queue_run_any by exact Hq.
  rewrite py_slice_from by lia. reflexivity.
Qed.






(** ** play *)

Lemma startNext_run (s : VoiceState.t) :
  VoiceState.startNext s =
    match VoiceState.loop s, VoiceState.current s with
    | true, Some c =>
        (Ok tt, VoiceState.set_playback Playing (VoiceState.set_current (Some c) s),
         [StreamStarted c (VoiceState.volume s)])
    | _, _ =>
        match VoiceState.songs s with
        | [] =>
            (Ok tt, VoiceState.set_playback Idle (VoiceState.set_current None s),
             [QueueEmpty])
        | x :: rest =>
            (Ok tt,
             VoiceState.set_playback Playing
               (VoiceState.set_current (Some x) (VoiceState.set_songs rest s)),
             [StreamStarted x (VoiceState.volume s)])
        end
    end.
Proof.
  destruct s as [v q c p l vol].
  unfold VoiceState.startNext, VoiceState.dequeueNext, mbind, VoiceState.Cmd_bind; simpl.
  destruct l, c, q; reflexivity.
Qed.

Section Play.

Variable resolve : string -> Track + string.
Variable reachable : Channel -> bool.

Lemma add_song_fails (s : VoiceState.t) (query err : string) :
  resolve query = inr err ->
  VoiceState.add_song resolve query s = (Raise (YTDLError err), s, [Resolved query]).
Proof.
  intros Hres. unfold VoiceState.add_song, mbind, VoiceState.Cmd_bind; simpl.
  rewrite Hres. reflexivity.
Qed.

Lemma add_song_ok (s : VoiceState.t) (query : string) (song : Track) :
  resolve query = inl song ->
  VoiceState.add_song resolve query s =
    let queued := VoiceState.set_songs (VoiceState.songs s ++ [song]) s in
    match VoiceState.playback s with
    | Idle =>
        match VoiceState.startNext queued with
        | (_, s', out) => (Ok song, s', Resolved query :: out)
        end
    | Playing | Paused => (Ok song, queued, [Resolved query])
    end.
Proof.
  intros Hres. unfold VoiceState.add_song. rewrite Hres.
  unfold mbind at 1 2 3 4. unfold VoiceState.Cmd_bind.
  destruct s as [v q c p l vol]; simpl.
  destruct p; try reflexivity.
  rewrite !startNext_run; simpl.
  destruct l, c, q; reflexivity.
Qed.

(** [play] on a session that is connected already. *)
Lemma play_connected (ctx : Music.Context) (s : VoiceState.t) (query : string) :
  VoiceState.voice s <> None ->
  Music.play resolve reachable ctx query s =
    match VoiceState.add_song resolve query s with
    | (Ok song, s', out) => (Ok tt, s', out ++ [SendEnqueued song])
    | (Raise (YTDLError err), s', out) =>
        (Ok tt, s',
         out ++ [Send ("An error occurred while processing this request: " +:+ err)])
    | (Raise e, s', out) => (Raise e, s', out)
    end.
Proof.
  intros Hvoice. unfold Music.play.
  unfold mbind at 1 2 3. unfold VoiceState.Cmd_bind; simpl.
  destruct (VoiceState.voice s) as [ch |]; [| congruence]. simpl.
  unfold VoiceState.try_except.
  unfold mbind at 1. unfold VoiceState.Cmd_bind; simpl.
  destruct (VoiceState.add_song resolve query s) as [[[song | e] s'] out]; simpl.
  - rewrite app_nil_r. reflexivity.
  - destruct e; simpl; try reflexivity.
    rewrite app_nil_r. reflexivity.
Qed.

(** C7.  When the resolver fails, [add_song] raises the resolver's error
    with its text unchanged and leaves the session as it was, and [play]
    shows that text to the user; when the resolver succeeds, [add_song]
    puts the resolved track at the end of the queue (and, from [Idle],
    starts the next track), returns it, and [play] shows it as
    enqueued. *)
Theorem add_song_resolution (ctx : Music.Context) (s : VoiceState.t) (query : string) :
  (forall err, resolve query = inr err ->
     VoiceState.add_song resolve query s = (Raise (YTDLError err), s, [Resolved query]) /\
     (VoiceState.voice s <> None ->
        Music.play resolve reachable ctx query s
          = (Ok tt, s,
             [Resolved query;
              Send ("An error occurred while processing this request: " +:+ err)])))
  /\
  (forall song, resolve query = inl song ->
     exists s' out,
       VoiceState.add_song resolve query s = (Ok song, s', Resolved query :: out) /\
       (VoiceState.playback s <> Idle ->
          s' = VoiceState.set_songs (VoiceState.songs s ++ [song]) s /\ out = []) /\
       (VoiceState.playback s = Idle ->
          VoiceState.startNext (VoiceState.set_songs (VoiceState.songs s ++ [song]) s)
            = (Ok tt, s', out)) /\
       (In song (VoiceState.songs s') \/ VoiceState.current s' = Some song) /\
       (VoiceState.voice s <> None ->
          Music.play resolve reachable ctx query s
            = (Ok tt, s', Resolved query :: out ++ [SendEnqueued song]))).
Proof.
  split.
  - intros err Hres. split; [apply add_song_fails, Hres |].
    intros Hvoice. rewrite play_connected by exact Hvoice.
    rewrite (add_song_fails s query err Hres). reflexivity.
  - intros song Hres.
    pose proof (add_song_ok s query song Hres) as Hadd. cbv zeta in Hadd.
    destruct (VoiceState.playback s) eqn:Hp.
    + destruct (VoiceState.startNext
                  (VoiceState.set_songs (VoiceState.songs s ++ [song]) s))
        as [[r s'] out] eqn:Hnext.
      exists s', out. split; [exact Hadd |].
      split; [congruence |].
      assert (Hr : r = Ok tt).
      { rewrite startNext_run in Hnext.
        repeat match type of Hnext with
               | context [match ?x with _ => _ end] => destruct x
               end; congruence. }
      subst r. split; [reflexivity |]. split.
      * rewrite startNext_run in Hnext.
        destruct s as [v q c p l vol]; simpl in Hnext.
        destruct l, c as [c |], q as [| x q]; simpl in Hnext;
          injection Hnext as <- _; simpl;
          first [right; reflexivity
                | left; rewrite ?in_app_iff; simpl; intuition auto ].
      * intros Hvoice. rewrite play_connected by exact Hvoice.
        rewrite Hadd. reflexivity.
    + exists (VoiceState.set_songs (VoiceState.songs s ++ [song]) s), [].
      split; [exact Hadd |]. split; [split; reflexivity |].
      split; [discriminate |]. split.
      * left. simpl. apply in_or_app. right. left. reflexivity.
      * intros Hvoice. rewrite play_connected by exact Hvoice.
        rewrite Hadd. reflexivity.
    + exists (VoiceState.set_songs (VoiceState.songs s ++ [song]) s), [].
      split; [exact Hadd |]. split; [split; reflexivity |].
      split; [discriminate |]. split.
      * left. simpl. apply in_or_app. right. left. reflexivity.
      * intros Hvoice. rewrite play_connected by exact Hvoice.
        rewrite Hadd. reflexivity.
Qed.

End Play.

(** ** The registry of sessions *)

Section Registry.

Variable resolve : string -> Track + string.
Variable reachable : Channel -> bool.
Variable random_order : list Track -> list Track.
Variable default_volume : float.

Lemma _get_voice_state_registered (voice_states : gmap Z VoiceState.t) (ctx : Music.Context) :
  snd (Music._get_voice_state default_volume voice_states ctx) !! Music.guild_id ctx
    = Some (fst (Music._get_voice_state default_volume voice_states ctx)).
Proof.
  unfold Music._get_voice_state.
  destruct (voice_states !! Music.guild_id ctx) as [state |] eqn:Hg; simpl.
  - exact Hg.
  - apply lookup_insert_eq.
Qed.

Lemma _get_voice_state_others (voice_states : gmap Z VoiceState.t) (ctx : Music.Context) (g : Z) :
  g <> Music.guild_id ctx ->
  snd (Music._get_voice_state default_volume voice_states ctx) !! g = voice_states !! g.
Proof.
  intros Hg. unfold Music._get_voice_state.
  destruct (voice_states !! Music.guild_id ctx) as [state |]; simpl.
  - reflexivity.
  - apply lookup_insert_ne. congruence.
Qed.

Lemma _get_voice_state_existing (voice_states : gmap Z VoiceState.t) (ctx : Music.Context)
    (s : VoiceState.t) :
  voice_states !! Music.guild_id ctx = Some s ->
  Music._get_voice_state default_volume voice_states ctx = (s, voice_states).
Proof. intros Hg. unfold Music._get_voice_state. rewrite Hg. reflexivity. Qed.

Lemma _get_voice_state_new (voice_states : gmap Z VoiceState.t) (ctx : Music.Context) :
  voice_states !! Music.guild_id ctx = None ->
  Music._get_voice_state default_volume voice_states ctx
    = (VoiceState.init default_volume,
       <[Music.guild_id ctx := VoiceState.init default_volume]> voice_states).
Proof. intros Hg. unfold Music._get_voice_state. rewrite Hg. reflexivity. Qed.

Lemma alter_registered (voice_states : gmap Z VoiceState.t) (g : Z) (s : VoiceState.t) :
  voice_states !! g = Some s -> alter (fun _ => s) g voice_states = voice_states.
Proof. intros Hg. apply alter_id. intros x Hx. congruence. Qed.

Lemma alter_deleted (voice_states : gmap Z VoiceState.t) (g : Z) (s : VoiceState.t) :
  alter (fun _ => s) g (delete g voice_states) = delete g voice_states.
Proof. apply alter_id. intros x Hx. rewrite lookup_delete_eq in Hx. discriminate. Qed.

Lemma leave_connected (ctx : Music.Context) (voice_states : gmap Z VoiceState.t)
    (s : VoiceState.t) (ch : Channel) :
  VoiceState.voice s = Some ch ->
  is_Some (voice_states !! Music.guild_id ctx) ->
  Music.leave ctx voice_states s =
    (Ok (delete (Music.guild_id ctx) voice_states),
     VoiceState.mk (Some ch) [] None Idle (VoiceState.loop s) (VoiceState.volume s),
     if VoiceState.is_playing s then [StreamStopped] else []).
Proof.
  intros Hv [stored Hstored]. destruct s as [v q c p l vol]; simpl in Hv; subst v.
  unfold Music.leave, mbind, VoiceState.Cmd_bind; simpl.
  rewrite Hstored. simpl. rewrite app_nil_r. reflexivity.
Qed.

Lemma leave_unregistered (ctx : Music.Context) (voice_states : gmap Z VoiceState.t)
    (s : VoiceState.t) (ch : Channel) :
  VoiceState.voice s = Some ch ->
  voice_states !! Music.guild_id ctx = None ->
  fst (fst (Music.leave ctx voice_states s)) = Raise KeyError.
Proof.
  intros Hv Hstored. destruct s as [v q c p l vol]; simpl in Hv; subst v.
  unfold Music.leave, mbind, VoiceState.Cmd_bind; simpl.
  rewrite Hstored. reflexivity.
Qed.

Lemma leave_unconnected (ctx : Music.Context) (voice_states : gmap Z VoiceState.t)
    (s : VoiceState.t) :
  VoiceState.voice s = None ->
  Music.leave ctx voice_states s
    = (Ok voice_states, s, [Send "I am not in a voice channel."]).
Proof.
  intros Hv. destruct s as [v q c p l vol]; simpl in Hv; subst v. reflexivity.
Qed.

(** A command hands back the registry it was given, or that registry
    without the guild's key. *)
Lemma run_registry (ctx : Music.Context) (voice_states voice_states' : gmap Z VoiceState.t)
    (c : Music.Command) (s s' : VoiceState.t) (out : list Event) :
  Music.run resolve reachable random_order ctx voice_states c s = (Ok voice_states', s', out) ->
  voice_states' = voice_states \/ voice_states' = delete (Music.guild_id ctx) voice_states.
Proof.
  destruct c; simpl;
    try (unfold mbind, VoiceState.Cmd_bind;
         match goal with
         | |- context [match ?m s with _ => _ end] =>
             destruct (m s) as [[[[] | e] s1] out1]
         end; simpl; intros H; left; congruence).
  destruct (VoiceState.voice s) as [ch |] eqn:Hv.
  - destruct (voice_states !! Music.guild_id ctx) as [stored |] eqn:Hstored.
    + rewrite (leave_connected ctx voice_states s ch Hv) by (rewrite Hstored; eauto).
      intros H. right. congruence.
    + pose proof (leave_unregistered ctx voice_states s ch Hv Hstored) as Hraise.
      intros H. rewrite H in Hraise. discriminate Hraise.
  - rewrite (leave_unconnected ctx voice_states s Hv). intros H. left. congruence.
Qed.

(** No command of one guild touches the session of another. *)
Lemma invoke_other_guilds (voice_states voice_states' : gmap Z VoiceState.t)
    (ctx : Music.Context) (c : Music.Command) (r : Result unit) (out : list Event) (g : Z) :
  Music.invoke resolve reachable random_order default_volume voice_states ctx c = Some (r, voice_states', out) ->
  g <> Music.guild_id ctx ->
  voice_states' !! g = voice_states !! g.
Proof.
  unfold Music.invoke, Music.cog_before_invoke. intros Hrun Hg.
  destruct (Music.cog_check ctx); [| discriminate].
  pose proof (_get_voice_state_others voice_states ctx g Hg) as Hothers.
  destruct (Music._get_voice_state default_volume voice_states ctx) as [state registered].
  simpl in Hothers.
  destruct (Music.run resolve reachable random_order ctx registered c state)
    as [[[after | e] state'] out'] eqn:Hc.
  - injection Hrun as _ <- _.
    rewrite lookup_alter_ne by congruence.
    destruct (run_registry _ _ _ _ _ _ _ Hc) as [-> | ->].
    + exact Hothers.
    + rewrite lookup_delete_ne by congruence. exact Hothers.
  - injection Hrun as _ <- _.
    rewrite lookup_alter_ne by congruence. exact Hothers.
Qed.

(** C8, amended.  The registry is a map, so a guild has at most one
    session.  The lookup before a command hands out the session stored
    for the guild, or stores exactly one new session for it, and leaves
    the other guilds alone.  [leave] on a session with a voice connection
    first runs the session's stop and then deletes the guild's entry, so
    the lookup of any later command of that guild creates a new session;
    no other guild is touched.  [leave] on a session without a voice
    connection answers "I am not in a voice channel." and keeps the
    session registered. *)
Theorem one_session_per_guild (voice_states : gmap Z VoiceState.t) (ctx : Music.Context) :
  let g := Music.guild_id ctx in
  let fresh := VoiceState.init default_volume in
  let state := fst (Music.cog_before_invoke default_volume voice_states ctx) in
  let registered := snd (Music.cog_before_invoke default_volume voice_states ctx) in
  registered !! g = Some state
  /\ (forall g', g' <> g -> registered !! g' = voice_states !! g')
  /\ (voice_states !! g = Some state /\ registered = voice_states
      \/ voice_states !! g = None /\ state = fresh /\
         registered = <[g := fresh]> voice_states /\
         size registered = S (size voice_states))
  /\ (Music.cog_check ctx = true ->
        forall ch, VoiceState.voice state = Some ch ->
          exists stopped out,
            VoiceState.stop state = (Ok tt, stopped, out) /\
            Music.leave ctx registered state = (Ok (delete g registered), stopped, out) /\
            Music.invoke resolve reachable random_order default_volume voice_states ctx Music.Leave
              = Some (Ok tt, delete g voice_states, out) /\
            delete g voice_states !! g = None /\
            (forall g', g' <> g -> delete g voice_states !! g' = voice_states !! g') /\
            (forall ctx', Music.guild_id ctx' = g ->
               Music.cog_before_invoke default_volume (delete g voice_states) ctx'
                 = (fresh, <[g := fresh]> (delete g voice_states))))
  /\ (Music.cog_check ctx = true ->
        VoiceState.voice state = None ->
        Music.invoke resolve reachable random_order default_volume voice_states ctx Music.Leave
          = Some (Ok tt, registered, [Send "I am not in a voice channel."])).
Proof.
  intros g fresh state registered.
  assert (Hcases :
            voice_states !! g = Some state /\ registered = voice_states
            \/ voice_states !! g = None /\ state = fresh /\
               registered = <[g := fresh]> voice_states /\
               size registered = S (size voice_states)).
  { subst state registered. unfold Music.cog_before_invoke.
    destruct (voice_states !! g) as [s |] eqn:Hg.
    - left. rewrite (_get_voice_state_existing voice_states ctx s Hg). split; reflexivity.
    - right. rewrite (_get_voice_state_new voice_states ctx Hg). simpl.
      repeat split. apply map_size_insert_None, Hg. }
  split; [apply _get_voice_state_registered |].
  split; [intros g' Hg'; apply _get_voice_state_others, Hg' |].
  split; [exact Hcases |]. split.
  - intros Hcheck ch Hvoice.
    destruct Hcases as [[Hg Hreg] | [_ [Hfresh _]]];
      [| rewrite Hfresh in Hvoice; discriminate].
    exists (VoiceState.mk (Some ch) [] None Idle (VoiceState.loop state) (VoiceState.volume state)).
    exists (if VoiceState.is_playing state then [StreamStopped] else []).
    split; [unfold VoiceState.stop; rewrite Hvoice; reflexivity |].
    assert (Hstored : is_Some (registered !! g)).
    { rewrite Hreg, Hg. eauto. }
    split; [apply leave_connected; assumption |].
    split.
    { unfold Music.invoke. rewrite Hcheck.
      fold state registered.
      destruct (Music.cog_before_invoke default_volume voice_states ctx) as [st rg].
      simpl in state, registered. subst state registered. simpl.
      rewrite (leave_connected ctx rg st ch Hvoice Hstored).
      rewrite alter_deleted, Hreg. reflexivity. }
    split; [apply lookup_delete_eq |].
    split; [intros g' Hg'; apply lookup_delete_ne; congruence |].
    intros ctx' Hctx'. unfold Music.cog_before_invoke.
    rewrite _get_voice_state_new; rewrite Hctx'; [reflexivity | apply lookup_delete_eq].
  - intros Hcheck Hvoice.
    pose proof (_get_voice_state_registered voice_states ctx) as Hstored.
    unfold Music.invoke. rewrite Hcheck.
    fold state registered.
    unfold Music.cog_before_invoke in *.
    destruct (Music._get_voice_state default_volume voice_states ctx) as [st rg].
    simpl in state, registered, Hstored. subst state registered. simpl.
    rewrite (leave_unconnected ctx rg st Hvoice).
    rewrite (alter_registered rg _ st Hstored). reflexivity.
Qed.





End Registry.

(** ** The properties of [play] and of the registry at concrete inputs *)

Lemma add_song_resolution_witness :
  VoiceState.add_song sample_resolve "nothing" playing_session
    = (Raise (YTDLError "Couldn't find anything"), playing_session, [Resolved "nothing"]) /\
  Music.play sample_resolve (fun _ => true) alice_ctx "nothing" playing_session
    = (Ok tt, playing_session,
       [Resolved "nothing";
        Send "An error occurred while processing this request: Couldn't find anything"]) /\
  (exists s' out,
     VoiceState.add_song sample_resolve "song" playing_session
       = (Ok (mkTrack "song" "https://example.org/q" None "alice"), s', Resolved "song" :: out) /\
     Music.play sample_resolve (fun _ => true) alice_ctx "song" playing_session
       = (Ok tt, s',
          Resolved "song" :: out
            ++ [SendEnqueued (mkTrack "song" "https://example.org/q" None "alice")])).
Proof.
  destruct (add_song_resolution sample_resolve (fun _ => true) alice_ctx playing_session "nothing")
    as [Hfail _].
  destruct (Hfail "Couldn't find anything" eq_refl) as [Hraise Hshown].
  split; [exact Hraise |]. split; [apply Hshown; discriminate |].
  destruct (add_song_resolution sample_resolve (fun _ => true) alice_ctx playing_session "song")
    as [_ Hok].
  destruct (Hok (mkTrack "song" "https://example.org/q" None "alice") eq_refl)
    as [s' [out [Hadd [_ [_ [_ Hplay]]]]]].
  exists s', out. split; [exact Hadd | apply Hplay; discriminate].
Defined.

(** C8, as it is worded, at a guild whose session has no voice connection:
    [leave] runs no stop and the session stays in the registry. *)
Lemma leave_without_connection_keeps_session :
  let voice_states : gmap Z VoiceState.t := {[1 := idle_session]} in
  VoiceState.voice idle_session = None /\
  Music.invoke sample_resolve (fun _ => true) reverse 0.5 voice_states alice_ctx Music.Leave
    = Some (Ok tt, voice_states, [Send "I am not in a voice channel."]) /\
  voice_states !! 1 = Some idle_session.
Proof.
  cbv zeta. split; [reflexivity |]. split; [vm_compute; reflexivity |].
  apply lookup_singleton_eq.
Qed.

Lemma one_session_per_guild_witness :
  (exists stopped out,
     VoiceState.stop playing_session = (Ok tt, stopped, out) /\
     Music.invoke sample_resolve (fun _ => true) reverse 0.5 {[1 := playing_session]}
         alice_ctx Music.Leave
       = Some (Ok tt, delete 1 ({[1 := playing_session]} : gmap Z VoiceState.t), out)) /\
  Music.invoke sample_resolve (fun _ => true) reverse 0.5 ∅ alice_ctx Music.Leave
    = Some (Ok tt, {[1 := idle_session]}, [Send "I am not in a voice channel."]).
Proof.
  split.
  - destruct (one_session_per_guild sample_resolve (fun _ => true) reverse 0.5
                {[1 := playing_session]} alice_ctx) as [_ [_ [_ [Hleave _]]]].
    destruct (Hleave eq_refl 7 eq_refl) as [stopped [out [Hstop [_ [Hinvoke _]]]]].
    exists stopped, out. split; [exact Hstop | exact Hinvoke].
  - destruct (one_session_per_guild sample_resolve (fun _ => true) reverse 0.5 ∅ alice_ctx)
      as [_ [_ [_ [_ Hkept]]]].
    apply Hkept; reflexivity.
Defined.


(** * Further properties of the cog *)

(** ** loop *)

(** X1.  While something plays, [loop] flips the loop flag, touches nothing
    else, and announces the flag it has just set; a second [loop] brings
    the session back to what it was.  From [Idle] it answers "Nothing is
    playing." and the flag stays. *)
Theorem loop_toggles (s : VoiceState.t) :
  (VoiceState.playback s <> Idle ->
     let s' := VoiceState.set_loop (negb (VoiceState.loop s)) s in
     Music.loop s
       = (Ok tt, s',
          [Send (if VoiceState.loop s' then "Song will now loop."
                 else "Song will now not loop.")]) /\
     snd (fst (Music.loop s')) = s)
  /\
  (VoiceState.playback s = Idle ->
     Music.loop s = (Ok tt, s, [Send "Nothing is playing."])).
Proof.
  split.
  - intros Hplay s'.
    assert (Hrun : forall x, VoiceState.playback x <> Idle ->
              Music.loop x
                = (Ok tt, VoiceState.set_loop (negb (VoiceState.loop x)) x,
                   [Send (if negb (VoiceState.loop x) then "Song will now loop."
                          else "Song will now not loop.")])).
    { intros x Hx. unfold Music.loop. rewrite guarded_playing by exact Hx.
      destruct x as [v q c p l vol]. destruct l; reflexivity. }
    split; [apply Hrun, Hplay |].
    rewrite Hrun by exact Hplay.
    destruct s as [v q c p l vol]. simpl. destruct l; reflexivity.
  - intros Hidle. unfold Music.loop. apply guarded_idle, Hidle.
Qed.

Lemma loop_toggles_witness :
  Music.loop playing_session
    = (Ok tt, VoiceState.set_loop true playing_session, [Send "Song will now loop."]) /\
  Music.loop (VoiceState.set_loop true playing_session)
    = (Ok tt, playing_session, [Send "Song will now not loop."]) /\
  Music.loop idle_session = (Ok tt, idle_session, [Send "Nothing is playing."]).
Proof.
  split; [| split].
  - apply (loop_toggles playing_session). discriminate.
  - apply (loop_toggles (VoiceState.set_loop true playing_session)). discriminate.
  - apply (loop_toggles idle_session). reflexivity.
Defined.

(** ** join *)

Section Join.

Variable reachable : Channel -> bool.

(** X2.  [join] goes to the channel it is given and, only when it is given
    none, to the channel of the author; with neither it answers "Stop
    bothering me, ..." and does nothing.  A session that has a connection
    is moved, one that has none is connected; nothing but the connection
    of the session changes, and when the channel cannot be reached the
    session stays as it was. *)
Theorem join_destination (ctx : Music.Context) (channel : option Channel) (s : VoiceState.t) :
  (channel = None -> Music.author_voice ctx = None ->
     Music._join reachable ctx channel s
       = (Ok tt, s, [Send "Stop bothering me, when you are not in a voice channel."]))
  /\
  (forall destination,
     channel = Some destination \/
     (channel = None /\ Music.author_voice ctx = Some destination) ->
     (reachable destination = true ->
        Music._join reachable ctx channel s
          = (Ok tt, VoiceState.set_voice (Some destination) s,
             [match VoiceState.voice s with
              | Some _ => MovedTo destination
              | None => Connected destination
              end]))
     /\
     (reachable destination = false ->
        Music._join reachable ctx channel s = (Raise (ConnectionError destination), s, []))).
Proof.
  split.
  - intros -> Hauthor. unfold Music._join. rewrite Hauthor. reflexivity.
  - intros destination Hdest.
    assert (Hjoin : Music._join reachable ctx channel s
                    = match VoiceState.voice s with
                      | Some _ => VoiceState.move_to reachable destination s
                      | None => VoiceState.connect reachable destination s
                      end).
    { unfold Music._join.
      destruct Hdest as [-> | [-> Hauthor]].
      - destruct s as [[ch |] q c p l vol], (Music.author_voice ctx);
          unfold mbind, VoiceState.Cmd_bind; simpl;
          match goal with
          | |- context [?m reachable destination ?x] =>
              destruct (m reachable destination x) as [[r s'] out]
          end; reflexivity.
      - rewrite Hauthor.
        destruct s as [[ch |] q c p l vol];
          unfold mbind, VoiceState.Cmd_bind; simpl;
          match goal with
          | |- context [?m reachable destination ?x] =>
              destruct (m reachable destination x) as [[r s'] out]
          end; reflexivity. }
    rewrite Hjoin. unfold VoiceState.move_to, VoiceState.connect.
    split; intros ->; destruct (VoiceState.voice s); reflexivity.
Qed.

End Join.

Lemma join_destination_witness :
  Music._join (fun _ => true) alice_ctx (Some 9) playing_session
    = (Ok tt, VoiceState.set_voice (Some 9) playing_session, [MovedTo 9]) /\
  Music._join (fun _ => true) alice_ctx None idle_session
    = (Ok tt, VoiceState.set_voice (Some 7) idle_session, [Connected 7]) /\
  Music._join (fun _ => false) alice_ctx None idle_session
    = (Raise (ConnectionError 7), idle_session, []) /\
  Music._join (fun _ => true) (Music.mkContext 1 None) None idle_session
    = (Ok tt, idle_session, [Send "Stop bothering me, when you are not in a voice channel."]).
Proof.
  split; [| split; [| split]].
  - destruct (join_destination (fun _ => true) alice_ctx (Some 9) playing_session) as [_ Hgo].
    apply (Hgo 9); [left; reflexivity | reflexivity].
  - destruct (join_destination (fun _ => true) alice_ctx None idle_session) as [_ Hgo].
    apply (Hgo 7); [right; split; reflexivity | reflexivity].
  - destruct (join_destination (fun _ => false) alice_ctx None idle_session) as [_ Hgo].
    apply (Hgo 7); [right; split; reflexivity | reflexivity].
  - apply (join_destination (fun _ => true) (Music.mkContext 1 None) None idle_session);
      reflexivity.
Defined.

(** ** Commands and the registry *)

Section Guilds.

Variable resolve : string -> Track + string.
Variable reachable : Channel -> bool.
Variable random_order : list Track -> list Track.
Variable default_volume : float.

(** Every command but [leave] hands back the registry it was given. *)
Lemma run_keeps_registry (ctx : Music.Context) (voice_states voice_states' : gmap Z VoiceState.t)
    (c : Music.Command) (s s' : VoiceState.t) (out : list Event) :
  c <> Music.Leave ->
  Music.run resolve reachable random_order ctx voice_states c s = (Ok voice_states', s', out) ->
  voice_states' = voice_states.
Proof.
  intros Hc. destruct c; try congruence; simpl;
    unfold mbind, VoiceState.Cmd_bind;
    match goal with
    | |- context [match ?m s with _ => _ end] =>
        destruct (m s) as [[[[] | e] s1] out1]
    end; simpl; intros H; congruence.
Qed.

(** X3.  A command that runs, whichever of the thirteen commands of the
    cog it is, leaves the sessions of all other guilds as they were, and
    after any command but [leave] the guild of the command has a session
    registered: only [leave] ever takes a session out of the registry. *)
Theorem commands_stay_in_their_guild (voice_states voice_states' : gmap Z VoiceState.t)
    (ctx : Music.Context) (c : Music.Command) (r : Result unit) (out : list Event) :
  Music.invoke resolve reachable random_order default_volume voice_states ctx c
    = Some (r, voice_states', out) ->
  (forall g, g <> Music.guild_id ctx -> voice_states' !! g = voice_states !! g)
  /\ (c <> Music.Leave -> is_Some (voice_states' !! Music.guild_id ctx)).
Proof.
  intros Hrun. split.
  - intros g Hg.
    exact (invoke_other_guilds resolve reachable random_order default_volume _ _ _ _ _ _ g Hrun Hg).
  - intros Hc. unfold Music.invoke, Music.cog_before_invoke in Hrun.
    destruct (Music.cog_check ctx); [| discriminate].
    pose proof (_get_voice_state_registered default_volume voice_states ctx) as Hstored.
    destruct (Music._get_voice_state default_volume voice_states ctx) as [state registered].
    simpl in Hstored.
    destruct (Music.run resolve reachable random_order ctx registered c state)
      as [[[after | e] state'] out'] eqn:Hcmd.
    + injection Hrun as _ <- _.
      rewrite (run_keeps_registry _ _ _ _ _ _ _ Hc Hcmd).
      rewrite lookup_alter_eq, Hstored. simpl. eauto.
    + injection Hrun as _ <- _.
      rewrite lookup_alter_eq, Hstored. simpl. eauto.
Qed.

End Guilds.

(** [stop], [skip] and [shuffle] in guild 1 while guild 2 has a paused
    session. *)
Lemma commands_stay_in_their_guild_witness :
  let voice_states : gmap Z VoiceState.t := {[1 := playing_session; 2 := paused_session]} in
  (exists voice_states',
     Music.invoke sample_resolve (fun _ => true) reverse 0.5 voice_states alice_ctx Music.Stop
       = Some (Ok tt, voice_states', [StreamStopped; AddReaction StopButton]) /\
     voice_states' !! 2 = Some paused_session /\
     is_Some (voice_states' !! 1)) /\
  (exists voice_states',
     Music.invoke sample_resolve (fun _ => true) reverse 0.5 voice_states alice_ctx Music.Skip
       = Some (Ok tt, voice_states',
               [StreamStopped; StreamStarted song_a 0.5; AddReaction SkipButton]) /\
     voice_states' !! 2 = Some paused_session /\
     is_Some (voice_states' !! 1)) /\
  (exists voice_states',
     Music.invoke sample_resolve (fun _ => true) reverse 0.5 voice_states alice_ctx Music.Shuffle
       = Some (Ok tt, voice_states', [AddReaction ShuffleButton]) /\
     voice_states' !! 2 = Some paused_session /\
     is_Some (voice_states' !! 1)).
Proof.
  cbv zeta.
  assert (Hshape : forall (c : Music.Command) (shown : list Event),
            c <> Music.Leave ->
            (exists voice_states',
               Music.invoke sample_resolve (fun _ => true) reverse 0.5
                 {[1 := playing_session; 2 := paused_session]} alice_ctx c
                 = Some (Ok tt, voice_states', shown)) ->
            exists voice_states',
              Music.invoke sample_resolve (fun _ => true) reverse 0.5
                {[1 := playing_session; 2 := paused_session]} alice_ctx c
                = Some (Ok tt, voice_states', shown) /\
              voice_states' !! 2 = Some paused_session /\
              is_Some (voice_states' !! 1)).
  { intros c shown Hc [voice_states' Hrun].
    destruct (commands_stay_in_their_guild sample_resolve (fun _ => true) reverse 0.5
                _ _ _ _ _ _ Hrun) as [Hothers Hkept].
    exists voice_states'. split; [exact Hrun |]. split.
    - rewrite (Hothers 2) by discriminate. reflexivity.
    - apply Hkept, Hc. }
  split; [| split]; apply Hshape; try discriminate;
    eexists; vm_compute; reflexivity.
Defined.

(** * Properties of the configuration *)

(** ** Dictionaries *)

Lemma dict_lookup_set_eq {A} (key : string) (v : A) (d : list (string * A)) :
  dict_lookup key (dict_set key v d) = Some v.
Proof.
  induction d as [| [k v'] d IH]; simpl.
  - rewrite String.eqb_refl. reflexivity.
  - destruct (String.eqb k key) eqn:E; simpl; rewrite E; [reflexivity | exact IH].
Qed.

Lemma dict_lookup_set_ne {A} (key key' : string) (v : A) (d : list (string * A)) :
  key <> key' ->
  dict_lookup key' (dict_set key v d) = dict_lookup key' d.
Proof.
  intros Hne. induction d as [| [k v'] d IH]; simpl.
  - destruct (String.eqb_spec key key'); [contradiction | reflexivity].
  - destruct (String.eqb_spec k key) as [-> | Hk]; simpl.
    + destruct (String.eqb_spec key key'); [contradiction | reflexivity].
    + rewrite IH. reflexivity.
Qed.

Lemma dict_lookup_alter_eq {A} (f : A -> A) (key : string) (d : list (string * A)) :
  dict_lookup key (dict_alter f key d) = f <$> dict_lookup key d.
Proof.
  induction d as [| [k v] d IH]; simpl; [reflexivity |].
  destruct (String.eqb k key) eqn:E; simpl; rewrite E; [reflexivity | exact IH].
Qed.

Lemma dict_lookup_alter_ne {A} (f : A -> A) (key key' : string) (d : list (string * A)) :
  key <> key' ->
  dict_lookup key' (dict_alter f key d) = dict_lookup key' d.
Proof.
  intros Hne. induction d as [| [k v] d IH]; simpl; [reflexivity |].
  destruct (String.eqb_spec k key) as [-> | Hk]; simpl.
  - destruct (String.eqb_spec key key'); [contradiction | reflexivity].
  - rewrite IH. reflexivity.
Qed.

Lemma dict_alter_keys {A} (f : A -> A) (key : string) (d : list (string * A)) :
  map fst (dict_alter f key d) = map fst d.
Proof.
  induction d as [| [k v] d IH]; simpl; [reflexivity |].
  destruct (String.eqb k key); simpl; [reflexivity | rewrite IH; reflexivity].
Qed.

(** Only what the function does to the value found under the key
    matters. *)
Lemma dict_alter_at {A} (f g : A -> A) (key : string) (d : list (string * A)) (v : A) :
  dict_lookup key d = Some v -> f v = g v ->
  dict_alter f key d = dict_alter g key d.
Proof.
  intros Hv Hfg. induction d as [| [k x] d IH]; simpl in *; [reflexivity |].
  destruct (String.eqb k key).
  - injection Hv as ->. rewrite Hfg. reflexivity.
  - rewrite IH by exact Hv. reflexivity.
Qed.

Lemma dict_alter_same {A} (key : string) (d : list (string * A)) (v : A) :
  dict_lookup key d = Some v ->
  dict_alter (fun _ => v) key d = d.
Proof.
  intros Hv. induction d as [| [k x] d IH]; simpl in *; [reflexivity |].
  destruct (String.eqb k key).
  - injection Hv as ->. reflexivity.
  - rewrite IH by exact Hv. reflexivity.
Qed.

Lemma dict_of_dicts_lookup (fields : list (string * Config.JSON)) (group : string)
    (v : Config.JSON) :
  forallb (fun entry => Config.is_dict (snd entry)) fields = true ->
  dict_lookup group fields = Some v ->
  exists fields', v = Config.JObj fields'.
Proof.
  induction fields as [| [k x] fields IH]; simpl; [discriminate |].
  intros Hall Hv. apply andb_prop in Hall. destruct Hall as [Hx Hall].
  destruct (String.eqb k group).
  - injection Hv as <-. destruct x; try discriminate. eauto.
  - exact (IH Hall Hv).
Qed.

(** ** _get *)

(** What [_get] consults of one document: whether [key] is found under
    [group]. *)
Lemma contains_group_key (doc : Config.JSON) (group key : string) :
  Config.dict_of_dicts doc = true ->
  (has_group ← Config.contains doc group;
   if has_group : bool then
     section ← Config.getitem doc group;
     Config.contains section key
   else mret false)
  = Config.Returns (bool_decide (is_Some (Config.item2 doc group key))).
Proof.
  destruct doc as [| | | | | fields]; try discriminate. simpl. intros Hall.
  unfold mbind, Config.Outcome_bind, Config.item2.
  destruct (dict_lookup group fields) as [v |] eqn:Hg.
  - destruct (dict_of_dicts_lookup fields group v Hall Hg) as [fields' ->].
    rewrite bool_decide_eq_true_2 by eauto. reflexivity.
  - rewrite !bool_decide_eq_false_2 by (intros [x Hx]; discriminate).
    reflexivity.
Qed.

Lemma getitem_group_key (doc : Config.JSON) (group key : string) (v : Config.JSON) :
  Config.item2 doc group key = Some v ->
  (section ← Config.getitem doc group; Config.getitem section key) = Config.Returns v
  /\ Config.at_path doc group (Some key) = v.
Proof.
  unfold Config.item2, Config.at_path. destruct doc as [| | | | | fields]; try discriminate.
  unfold mbind, Config.Outcome_bind; simpl.
  destruct (dict_lookup group fields) as [[| | | | | fields'] |]; try discriminate.
  intros Hv. simpl. rewrite Hv. split; reflexivity.
Qed.

Lemma item2_getitem (doc : Config.JSON) (group key : string) (v : Config.JSON) :
  Config.item2 doc group key = Some v ->
  exists section,
    Config.getitem doc group = Config.Returns section /\
    Config.getitem section key = Config.Returns v.
Proof.
  unfold Config.item2. destruct doc as [| | | | | fields]; try discriminate. simpl.
  destruct (dict_lookup group fields) as [[| | | | | fields'] |]; try discriminate.
  intros Hv. eexists. split; [reflexivity |]. simpl. rewrite Hv. reflexivity.
Qed.

(** [_get] on documents that are dictionaries of dictionaries: the
    reference it returns and the value that is read through it. *)
Lemma _get_run (self : Config.t) (group key : string) :
  Config.dict_of_dicts (Config.config self) = true ->
  Config.dict_of_dicts (Config.default self) = true ->
  Config._get self group (Some key)
    = Config.Returns
        (match Config.item2 (Config.config self) group key with
         | Some _ => Config.InConfig group (Some key)
         | None =>
             match Config.item2 (Config.default self) group key with
             | Some _ => Config.InDefault group (Some key)
             | None => Config.PyNone
             end
         end)
  /\
  Config._get_value self group (Some key)
    = Config.Returns
        (match Config.item2 (Config.config self) group key with
         | Some v => v
         | None =>
             match Config.item2 (Config.default self) group key with
             | Some v => v
             | None => Config.JNull
             end
         end).
Proof.
  intros Hconfig Hdefault.
  assert (Href : Config._get self group (Some key)
                 = Config.Returns
                     (match Config.item2 (Config.config self) group key with
                      | Some _ => Config.InConfig group (Some key)
                      | None =>
                          match Config.item2 (Config.default self) group key with
                          | Some _ => Config.InDefault group (Some key)
                          | None => Config.PyNone
                          end
                      end)).
  { unfold Config._get.
    rewrite (contains_group_key _ group key Hconfig).
    rewrite (contains_group_key _ group key Hdefault).
    unfold mbind at 1. unfold Config.Outcome_bind at 1.
    destruct (Config.item2 (Config.config self) group key) as [v |] eqn:Hc.
    - rewrite bool_decide_eq_true_2 by eauto.
      destruct (getitem_group_key _ group key v Hc) as [Hitem _].
      unfold mbind at 1. unfold mbind in Hitem.
      destruct (Config.getitem (Config.config self) group) as [section |]; [| discriminate].
      simpl in *. unfold mbind, Config.Outcome_bind. rewrite Hitem. reflexivity.
    - rewrite bool_decide_eq_false_2 by (intros [x Hx]; discriminate).
      unfold mbind at 1. unfold Config.Outcome_bind at 1.
      destruct (Config.item2 (Config.default self) group key) as [v |] eqn:Hd.
      + rewrite bool_decide_eq_true_2 by eauto.
        destruct (getitem_group_key _ group key v Hd) as [Hitem _].
        unfold mbind at 1. unfold mbind in Hitem.
        destruct (Config.getitem (Config.default self) group) as [section |]; [| discriminate].
        simpl in *. unfold mbind, Config.Outcome_bind. rewrite Hitem. reflexivity.
      + rewrite bool_decide_eq_false_2 by (intros [x Hx]; discriminate).
        reflexivity. }
  split; [exact Href |].
  unfold Config._get_value. rewrite Href. unfold mbind, Config.Outcome_bind, mret, Config.Outcome_ret.
  destruct (Config.item2 (Config.config self) group key) as [v |] eqn:Hc.
  - simpl. f_equal. apply (getitem_group_key _ group key v Hc).
  - destruct (Config.item2 (Config.default self) group key) as [v |] eqn:Hd.
    + simpl. f_equal. apply (getitem_group_key _ group key v Hd).
    + reflexivity.
Qed.

(** X4.  On documents that are dictionaries of dictionaries [_get] never
    raises, and it decides key by key: it returns the value [config] has
    under [group] and [key] whatever that value is, so a [null] in [config]
    shadows the default; when [config] has no such key, even if it has the
    group, it returns the value of [default]; and [None] when neither has
    one. *)
Theorem _get_config_before_default (self : Config.t) (group key : string) :
  Config.dict_of_dicts (Config.config self) = true ->
  Config.dict_of_dicts (Config.default self) = true ->
  (forall v, Config.item2 (Config.config self) group key = Some v ->
     Config._get_value self group (Some key) = Config.Returns v)
  /\
  (Config.item2 (Config.config self) group key = None ->
   forall v, Config.item2 (Config.default self) group key = Some v ->
     Config._get_value self group (Some key) = Config.Returns v)
  /\
  (Config.item2 (Config.config self) group key = None ->
   Config.item2 (Config.default self) group key = None ->
     Config._get_value self group (Some key) = Config.Returns Config.JNull).
Proof.
  intros Hconfig Hdefault.
  destruct (_get_run self group key Hconfig Hdefault) as [_ Hvalue].
  split; [| split].
  - intros v Hc. rewrite Hvalue, Hc. reflexivity.
  - intros Hc v Hd. rewrite Hvalue, Hc, Hd. reflexivity.
  - intros Hc Hd. rewrite Hvalue, Hc, Hd. reflexivity.
Qed.

Lemma _get_config_before_default_witness :
  Config.bot_owner sample_self = Config.Returns Config.JNull /\
  Config.color sample_self = Config.Returns (Config.JStr "0x00FF00") /\
  Config.logo_url sample_self = Config.Returns Config.JNull.
Proof.
  split; [| split].
  - destruct (_get_config_before_default sample_self "bot" "owner" eq_refl eq_refl)
      as [Hconfig _].
    apply Hconfig. reflexivity.
  - destruct (_get_config_before_default sample_self "bot" "color" eq_refl eq_refl)
      as [_ [Hdefault _]].
    apply Hdefault; reflexivity.
  - destruct (_get_config_before_default sample_self "bot" "logo_url" eq_refl eq_refl)
      as [_ [_ Hnone]].
    apply Hnone; reflexivity.
Defined.

(** X5.  When [config] has the group but its value [v] is not a
    dictionary, [_get] raises a type error as soon as [key in v] is not
    plainly false: for a number, a truth value or [null], for a string that
    has [key] as a part, and for a list that has [key] as an item.  The
    default is not consulted then.  When [key in v] is false, [_get] goes on
    to the default. *)
Theorem _get_group_not_a_dict (self : Config.t) (group key : string)
    (fields : list (string * Config.JSON)) (v : Config.JSON) :
  Config.config self = Config.JObj fields ->
  dict_lookup group fields = Some v ->
  Config.is_dict v = false ->
  (Config.contains v key <> Config.Returns false ->
     Config._get self group (Some key) = Config.Raises Config.TypeError)
  /\
  (Config.contains v key = Config.Returns false ->
   Config.dict_of_dicts (Config.default self) = true ->
     Config._get self group (Some key)
       = Config.Returns
           (match Config.item2 (Config.default self) group key with
            | Some _ => Config.InDefault group (Some key)
            | None => Config.PyNone
            end)).
Proof.
  intros Hconfig Hgroup Hv.
  assert (Hhas : Config.contains (Config.config self) group = Config.Returns true).
  { rewrite Hconfig. simpl. rewrite bool_decide_eq_true_2 by eauto. reflexivity. }
  assert (Hsection : Config.getitem (Config.config self) group = Config.Returns v).
  { rewrite Hconfig. simpl. rewrite Hgroup. reflexivity. }
  split.
  - intros Hin. unfold Config._get.
    rewrite Hhas, Hsection. unfold mbind, Config.Outcome_bind; simpl.
    destruct v as [| b | n | s | items | fields']; simpl in *;
      try reflexivity; try discriminate.
    + destruct (bool_decide (is_Some (String.index 0 key s))); [reflexivity | congruence].
    + destruct (existsb (Config.is_str key) items); [reflexivity | congruence].
  - intros Hout Hdefault. unfold Config._get.
    rewrite (contains_group_key _ group key Hdefault).
    rewrite Hhas, Hsection. unfold mbind, Config.Outcome_bind.
    rewrite Hout.
    destruct (Config.item2 (Config.default self) group key) as [x |] eqn:Hd.
    + rewrite bool_decide_eq_true_2 by eauto.
      destruct (item2_getitem _ group key x Hd) as [section [Hs Hk]].
      rewrite Hs, Hk. reflexivity.
    + rewrite bool_decide_eq_false_2 by (intros [y Hy]; discriminate).
      reflexivity.
Qed.

Lemma _get_group_not_a_dict_witness :
  let broken :=
    Config.set_config
      (Config.JObj [("bot", Config.JStr "token=abc"); ("extensions", Config.JInt 3)])
      sample_self in
  Config._get broken "bot" (Some "token") = Config.Raises Config.TypeError /\
  Config._get broken "extensions" (Some "enabled") = Config.Raises Config.TypeError /\
  Config._get broken "bot" (Some "owner")
    = Config.Returns (Config.InDefault "bot" (Some "owner")).
Proof.
  cbv zeta.
  set (broken := Config.set_config
                   (Config.JObj [("bot", Config.JStr "token=abc");
                                 ("extensions", Config.JInt 3)])
                   sample_self).
  split; [| split].
  - destruct (_get_group_not_a_dict broken "bot" "token" _ (Config.JStr "token=abc")
                eq_refl eq_refl eq_refl) as [Hraise _].
    apply Hraise. discriminate.
  - destruct (_get_group_not_a_dict broken "extensions" "enabled" _ (Config.JInt 3)
                eq_refl eq_refl eq_refl) as [Hraise _].
    apply Hraise. discriminate.
  - destruct (_get_group_not_a_dict broken "bot" "owner" _ (Config.JStr "token=abc")
                eq_refl eq_refl eq_refl) as [_ Hdefault].
    apply Hdefault; reflexivity.
Defined.

(** X6.  [debug] is on exactly when the value [_get] finds for the key
    [debug] of the group [bot] is the string "True".  Any other value
    there, the truth value [true] included, gives [False]; in particular a
    [debug] of [config] that is not that string switches off a "True" of
    the default. *)
Theorem debug_needs_the_string (self : Config.t) :
  Config.dict_of_dicts (Config.config self) = true ->
  Config.dict_of_dicts (Config.default self) = true ->
  forall v,
    Config._get_value self "bot" (Some "debug") = Config.Returns v ->
    (Config.debug self = Config.Returns true <-> v = Config.JStr "True")
    /\ (v <> Config.JStr "True" -> Config.debug self = Config.Returns false)
    /\ (forall x, Config.item2 (Config.config self) "bot" "debug" = Some x -> v = x).
Proof.
  intros Hconfig Hdefault v Hv.
  assert (Hdebug : Config.debug self = Config.Returns (Config.is_str "True" v)).
  { unfold Config.debug. rewrite Hv. reflexivity. }
  assert (Hstr : Config.is_str "True" v = true <-> v = Config.JStr "True").
  { destruct v as [| b | n | s | items | fields]; simpl; try (split; discriminate).
    split.
    - intros H. apply String.eqb_eq in H. congruence.
    - intros H. injection H as ->. reflexivity. }
  split; [| split].
  - rewrite Hdebug. split.
    + intros H. apply Hstr. congruence.
    + intros H. f_equal. apply Hstr, H.
  - intros Hne. rewrite Hdebug. f_equal.
    destruct (Config.is_str "True" v) eqn:E; [| reflexivity].
    exfalso. apply Hne, Hstr. reflexivity.
  - intros x Hx.
    destruct (_get_run self "bot" "debug" Hconfig Hdefault) as [_ Hvalue].
    rewrite Hvalue, Hx in Hv. congruence.
Qed.

Lemma debug_needs_the_string_witness :
  Config.debug sample_self = Config.Returns false /\
  Config.debug (Config.set_config (Config.JObj []) sample_self) = Config.Returns true.
Proof.
  split.
  - apply (debug_needs_the_string sample_self eq_refl eq_refl (Config.JBool true));
      [reflexivity | discriminate].
  - apply (debug_needs_the_string (Config.set_config (Config.JObj []) sample_self)
             eq_refl eq_refl (Config.JStr "True")); reflexivity.
Defined.

(** ** __init__ and reload *)

Lemma _get_reads_documents (s s' : Config.t) (group : string) (key : option string) :
  Config.config s = Config.config s' ->
  Config.default s = Config.default s' ->
  Config._get s group key = Config._get s' group key.
Proof.
  destruct s, s'; simpl. intros -> ->. reflexivity.
Qed.

Lemma deref_reads_documents (s s' : Config.t) (r : Config.Ref) :
  Config.config s = Config.config s' ->
  Config.default s = Config.default s' ->
  Config.deref s r = Config.deref s' r.
Proof.
  destruct s, s'; simpl. intros -> ->. reflexivity.
Qed.

(** [__init__] step by step, when both files are there. *)
Lemma __init___run (s : Config.t) (files : gmap string Config.JSON) (out : list string)
    (c d : Config.JSON) :
  files !! "config/config.json" = Some c ->
  files !! "config/default.json" = Some d ->
  Config.__init__ (Config.mkEnv s files out) =
    let docs := Config.mk c d Config.PyNone Config.PyNone Config.PyNone in
    match Config._get docs "bot" (Some "prefixes") with
    | Config.Raises x =>
        (Config.Raises x,
         Config.mkEnv (Config.set_default d (Config.set_config c s)) files out)
    | Config.Returns r1 =>
        match Config._get docs "extensions" (Some "enabled") with
        | Config.Raises x =>
            (Config.Raises x,
             Config.mkEnv
               (Config.mk c d r1 (Config.extensions_enabled s) (Config.extensions_disabled s))
               files out)
        | Config.Returns r2 =>
            match Config.join ", " (Config.deref docs r2) with
            | Config.Raises x =>
                (Config.Raises x,
                 Config.mkEnv (Config.mk c d r1 r2 (Config.extensions_disabled s)) files out)
            | Config.Returns enabled =>
                let line1 := Config.Fore_YELLOW +:+ "Enabled extensions: " +:+ enabled in
                match Config._get docs "extensions" (Some "disabled") with
                | Config.Raises x =>
                    (Config.Raises x,
                     Config.mkEnv (Config.mk c d r1 r2 (Config.extensions_disabled s))
                       files (out ++ [line1]))
                | Config.Returns r3 =>
                    match Config.join ", " (Config.deref docs r3) with
                    | Config.Raises x =>
                        (Config.Raises x,
                         Config.mkEnv (Config.mk c d r1 r2 r3) files (out ++ [line1]))
                    | Config.Returns disabled =>
                        (Config.Returns tt,
                         Config.mkEnv (Config.mk c d r1 r2 r3) files
                           ((out ++ [line1])
                              ++ [Config.Fore_YELLOW +:+ "Disabled extensions: " +:+ disabled]))
                    end
                end
            end
        end
    end.
Proof.
  intros Hc Hd. cbv zeta.
  set (docs := Config.mk c d Config.PyNone Config.PyNone Config.PyNone).
  unfold Config.__init__.
  unfold mbind at 1. unfold Config.M_bind at 1. cbn [Config.files].
  rewrite Hc, Hd.
  unfold mbind, Config.M_bind, Config.modify_self, Config.get_self, Config.lift, Config.print.
  cbn [Config.self Config.files Config.stdout].
  rewrite (_get_reads_documents _ docs "bot" (Some "prefixes")) by reflexivity.
  destruct (Config._get docs "bot" (Some "prefixes")) as [r1 | x]; [| reflexivity].
  rewrite (_get_reads_documents _ docs "extensions" (Some "enabled")) by reflexivity.
  destruct (Config._get docs "extensions" (Some "enabled")) as [r2 | x]; [| reflexivity].
  cbn [Config.extensions_enabled Config.set_extensions_enabled].
  rewrite (deref_reads_documents _ docs r2) by reflexivity.
  destruct (Config.join ", " (Config.deref docs r2)) as [enabled | x]; [| reflexivity].
  rewrite (_get_reads_documents _ docs "extensions" (Some "disabled")) by reflexivity.
  destruct (Config._get docs "extensions" (Some "disabled")) as [r3 | x]; [| reflexivity].
  cbn [Config.extensions_disabled Config.set_extensions_disabled].
  rewrite (deref_reads_documents _ docs r3) by reflexivity.
  destruct (Config.join ", " (Config.deref docs r3)) as [disabled | x]; reflexivity.
Qed.

Lemma __init___missing (s : Config.t) (files : gmap string Config.JSON) (out : list string) :
  files !! "config/config.json" = None \/ files !! "config/default.json" = None ->
  exists s',
    Config.__init__ (Config.mkEnv s files out)
      = (Config.Raises (Config.SystemExit 1),
         Config.mkEnv s' files (out ++ ["Configuration file not found."])).
Proof.
  intros Hmissing. unfold Config.__init__.
  unfold mbind at 1. unfold Config.M_bind at 1. cbn [Config.files].
  destruct (files !! "config/config.json") as [c |] eqn:Hc.
  - destruct Hmissing as [? | Hd]; [discriminate |]. rewrite Hd.
    eexists. reflexivity.
  - eexists. reflexivity.
Qed.

Lemma __init___keeps_files (e : Config.Env) :
  Config.files (snd (Config.__init__ e)) = Config.files e.
Proof.
  destruct e as [s files out]. simpl.
  destruct (files !! "config/config.json") as [c |] eqn:Hc;
    [destruct (files !! "config/default.json") as [d |] eqn:Hd |].
  - rewrite (__init___run s files out c d Hc Hd). cbv zeta.
    repeat match goal with
           | |- context [match ?x with Config.Returns _ => _ | Config.Raises _ => _ end] =>
               destruct x
           end; reflexivity.
  - destruct (__init___missing s files out (or_intror Hd)) as [s' ->]. reflexivity.
  - destruct (__init___missing s files out (or_introl Hc)) as [s' ->]. reflexivity.
Qed.

(** X7.  When one of the two files [config/config.json] and
    [config/default.json] is missing, whichever it is, [Config()] prints
    "Configuration file not found." and exits with status 1; no file is
    written. *)
Theorem init_exits_without_files (files : gmap string Config.JSON) (out : list string) :
  files !! "config/config.json" = None \/ files !! "config/default.json" = None ->
  fst (Config.new files out) = Config.Raises (Config.SystemExit 1)
  /\ Config.stdout (snd (Config.new files out)) = out ++ ["Configuration file not found."]
  /\ Config.files (snd (Config.new files out)) = files.
Proof.
  intros Hmissing. unfold Config.new.
  destruct (__init___missing Config.blank files out Hmissing) as [s' ->].
  repeat split.
Qed.

Lemma init_exits_without_files_witness :
  let files : gmap string Config.JSON := {["config/config.json" := sample_config]} in
  fst (Config.new files []) = Config.Raises (Config.SystemExit 1)
  /\ Config.stdout (snd (Config.new files [])) = ["Configuration file not found."]
  /\ Config.files (snd (Config.new files [])) = files.
Proof.
  cbv zeta.
  apply (init_exits_without_files {["config/config.json" := sample_config]} []).
  right. vm_compute. reflexivity.
Defined.

(** What [__init__] does with the object it is run on: the result and the
    lines printed are those of the two files alone, and so is the object
    when [__init__] returns. *)
Lemma __init___forgets (s s' : Config.t) (files files' : gmap string Config.JSON)
    (out out' : list string) :
  files' !! "config/config.json" = files !! "config/config.json" ->
  files' !! "config/default.json" = files !! "config/default.json" ->
  fst (Config.__init__ (Config.mkEnv s' files' out'))
    = fst (Config.__init__ (Config.mkEnv s files out))
  /\ (exists lines,
        Config.stdout (snd (Config.__init__ (Config.mkEnv s files out))) = out ++ lines /\
        Config.stdout (snd (Config.__init__ (Config.mkEnv s' files' out'))) = out' ++ lines)
  /\ (fst (Config.__init__ (Config.mkEnv s files out)) = Config.Returns tt ->
      Config.self (snd (Config.__init__ (Config.mkEnv s' files' out')))
        = Config.self (snd (Config.__init__ (Config.mkEnv s files out)))).
Proof.
  intros Hc Hd.
  destruct (files !! "config/config.json") as [c |] eqn:Hfc.
  - destruct (files !! "config/default.json") as [d |] eqn:Hfd.
    + rewrite (__init___run s files out c d Hfc Hfd).
      rewrite (__init___run s' files' out' c d Hc Hd). cbv zeta.
      repeat match goal with
             | |- context [match ?x with Config.Returns _ => _ | Config.Raises _ => _ end] =>
                 destruct x
             end; cbn [fst snd Config.stdout Config.self];
        (split; [reflexivity |]);
        (split; [| first [discriminate | reflexivity]]);
        first [ exists []; rewrite !app_nil_r; split; reflexivity
              | eexists [_]; split; reflexivity
              | eexists [_; _]; rewrite <- !app_assoc; split; reflexivity ].
    + unfold Config.__init__, mbind, Config.M_bind. cbn [Config.files].
      rewrite Hc, Hd, Hfc, Hfd. cbn.
      split; [reflexivity |]. split; [| discriminate].
      eexists [_]. split; reflexivity.
  - unfold Config.__init__, mbind, Config.M_bind. cbn [Config.files].
    rewrite Hc, Hfc. cbn.
    split; [reflexivity |]. split; [| discriminate].
    eexists [_]. split; reflexivity.
Qed.

(** X8.  A [reload] that goes through leaves exactly the object and the
    output that a new [Config()] on the same files gives: nothing of what
    the object held before survives it, a [reload] of any other object on
    these files ends with the same object.  It writes no file. *)
Theorem reload_is_a_fresh_load (e e1 : Config.Env) :
  Config.reload e = (Config.Returns tt, e1) ->
  Config.new (Config.files e) (Config.stdout e) = (Config.Returns (Config.self e1), e1)
  /\ Config.files e1 = Config.files e
  /\ (forall other : Config.t,
        Config.reload (Config.mkEnv other (Config.files e) (Config.stdout e))
          = (Config.Returns tt, e1)).
Proof.
  intros Hreload.
  pose proof (__init___keeps_files e) as Hfiles.
  unfold Config.reload in *. rewrite Hreload in Hfiles. simpl in Hfiles.
  assert (Hany : forall other : Config.t,
            Config.__init__ (Config.mkEnv other (Config.files e) (Config.stdout e))
              = (Config.Returns tt, e1)).
  { intros other. destruct e as [s files out]. simpl in *.
    destruct (files !! "config/config.json") as [c |] eqn:Hc;
      [destruct (files !! "config/default.json") as [d |] eqn:Hd |].
    - rewrite (__init___run s files out c d Hc Hd) in Hreload.
      rewrite (__init___run other files out c d Hc Hd).
      cbv zeta in *.
      repeat match goal with
             | |- context [match ?x with Config.Returns _ => _ | Config.Raises _ => _ end] =>
                 destruct x; try discriminate
             end.
      injection Hreload as <-. reflexivity.
    - destruct (__init___missing s files out (or_intror Hd)) as [s' Hs'].
      rewrite Hs' in Hreload. discriminate.
    - destruct (__init___missing s files out (or_introl Hc)) as [s' Hs'].
      rewrite Hs' in Hreload. discriminate. }
  split; [| split; [exact Hfiles | exact Hany]].
  unfold Config.new. rewrite (Hany Config.blank). reflexivity.
Qed.

(** An object that has enabled the extension "fun", with the lists in
    memory changed and a line printed before, is after [reload] the object
    of a new [Config()] again. *)
Lemma reload_is_a_fresh_load_witness :
  let used := snd (Config.enable_extension "fun"
                     (Config.mkEnv sample_self sample_files ["started"])) in
  Config.self used <> sample_self /\
  exists e1,
    Config.reload used = (Config.Returns tt, e1) /\
    Config.self e1 = sample_self /\
    Config.new (Config.files used) ["started"] = (Config.Returns sample_self, e1).
Proof.
  cbv zeta.
  set (used := snd (Config.enable_extension "fun"
                      (Config.mkEnv sample_self sample_files ["started"]))).
  split.
  - intros Hsame. apply (f_equal Config.config) in Hsame.
    vm_compute in Hsame. discriminate Hsame.
  - destruct (Config.reload used) as [r e1] eqn:Hreload.
    assert (Hr : r = Config.Returns tt /\ Config.self e1 = sample_self).
    { vm_compute in Hreload. injection Hreload as <- <-. split; reflexivity. }
    destruct Hr as [-> Hself].
    exists e1. split; [reflexivity |]. split; [exact Hself |].
    rewrite <- Hself.
    exact (proj1 (reload_is_a_fresh_load used e1 Hreload)).
Defined.

Lemma strings_of_strings (names : list string) :
  Config.strings_of (map Config.JStr names) = Config.Returns names.
Proof.
  induction names as [| n names IH]; simpl; [reflexivity |].
  rewrite IH. reflexivity.
Qed.

Lemma join_raises (sep : string) (v : Config.JSON) (x : Config.Error) :
  Config.join sep v = Config.Raises x -> x = Config.TypeError.
Proof.
  destruct v as [| b | n | s | items | fields]; simpl; try congruence.
  unfold mbind, Config.Outcome_bind.
  assert (Hitems : forall y, Config.strings_of items = Config.Raises y -> y = Config.TypeError).
  { induction items as [| v items IH]; simpl; [discriminate |].
    destruct v; try congruence.
    destruct (Config.strings_of items); [discriminate |].
    intros y Hy. injection Hy as <-. apply IH. reflexivity. }
  destruct (Config.strings_of items) as [l | y] eqn:E; [discriminate |].
  intros H. injection H as <-. apply Hitems. reflexivity.
Qed.

Lemma _get_origin (c d : Config.JSON) (r1 r2 r3 : Config.Ref) (group key : string) :
  Config.dict_of_dicts c = true ->
  Config.dict_of_dicts d = true ->
  Config._get (Config.mk c d r1 r2 r3) group (Some key)
    = Config.Returns (Config.origin c d group key).
Proof.
  intros Hc Hd. apply (_get_run (Config.mk c d r1 r2 r3) group key Hc Hd).
Qed.

(** X9.  When the two files are dictionaries of dictionaries and neither
    has a list of enabled extensions, or neither has a list of disabled
    ones, [Config()] ends in a type error: the constructor joins the names
    of a list that is [None]. *)
Theorem init_needs_both_extension_lists (files : gmap string Config.JSON) (out : list string)
    (c d : Config.JSON) :
  files !! "config/config.json" = Some c ->
  files !! "config/default.json" = Some d ->
  Config.dict_of_dicts c = true ->
  Config.dict_of_dicts d = true ->
  Config.origin c d "extensions" "enabled" = Config.PyNone \/
  Config.origin c d "extensions" "disabled" = Config.PyNone ->
  fst (Config.new files out) = Config.Raises Config.TypeError.
Proof.
  intros Hfc Hfd Hc Hd Hnone. unfold Config.new.
  rewrite (__init___run Config.blank files out c d Hfc Hfd). cbv zeta.
  rewrite !(_get_origin c d) by assumption.
  destruct Hnone as [Hen | Hdis].
  - rewrite Hen. reflexivity.
  - destruct (Config.join ", " _) as [enabled | x] eqn:Hjoin.
    + rewrite Hdis. reflexivity.
    + rewrite (join_raises _ _ _ Hjoin). reflexivity.
Qed.

Lemma init_needs_both_extension_lists_witness :
  let bare := Config.JObj [("bot", Config.JObj [("token", Config.JStr "abc")])] in
  fst (Config.new {["config/config.json" := bare; "config/default.json" := bare]} [])
    = Config.Raises Config.TypeError.
Proof.
  cbv zeta.
  eapply init_needs_both_extension_lists;
    [vm_compute; reflexivity | vm_compute; reflexivity | reflexivity | reflexivity
    | left; reflexivity].
Defined.

(** X10.  When the two files are dictionaries of dictionaries and the
    lists of enabled and of disabled extensions, each taken from [config]
    if it is there and from [default] otherwise, are lists of strings,
    [Config()] goes through: the object holds the two documents as they
    were read, its three attributes refer to the objects of the documents
    they were found in, the two lists are printed, and no file is
    written. *)
Theorem init_loads (files : gmap string Config.JSON) (out : list string)
    (c d : Config.JSON) (enabled disabled : list string) :
  files !! "config/config.json" = Some c ->
  files !! "config/default.json" = Some d ->
  Config.dict_of_dicts c = true ->
  Config.dict_of_dicts d = true ->
  let loaded :=
    Config.mk c d (Config.origin c d "bot" "prefixes")
      (Config.origin c d "extensions" "enabled")
      (Config.origin c d "extensions" "disabled") in
  Config.deref loaded (Config.extensions_enabled loaded)
    = Config.JArr (map Config.JStr enabled) ->
  Config.deref loaded (Config.extensions_disabled loaded)
    = Config.JArr (map Config.JStr disabled) ->
  Config.new files out
    = (Config.Returns loaded,
       Config.mkEnv loaded files
         (out ++ [Config.Fore_YELLOW +:+ "Enabled extensions: " +:+ String.concat ", " enabled;
                  Config.Fore_YELLOW +:+ "Disabled extensions: "
                    +:+ String.concat ", " disabled])).
Proof.
  intros Hfc Hfd Hc Hd loaded Hen Hdis. unfold Config.new.
  rewrite (__init___run Config.blank files out c d Hfc Hfd). cbv zeta.
  rewrite !(_get_origin c d) by assumption.
  rewrite (deref_reads_documents _ loaded (Config.origin c d "extensions" "enabled"))
    by reflexivity.
  rewrite (deref_reads_documents _ loaded (Config.origin c d "extensions" "disabled"))
    by reflexivity.
  simpl in Hen, Hdis. rewrite Hen, Hdis. simpl.
  rewrite !strings_of_strings. simpl.
  rewrite <- app_assoc. reflexivity.
Qed.

Lemma init_loads_witness :
  Config.new sample_files []
    = (Config.Returns sample_self,
       Config.mkEnv sample_self sample_files
         [Config.Fore_YELLOW +:+ "Enabled extensions: music";
          Config.Fore_YELLOW +:+ "Disabled extensions: fun, mod"]).
Proof.
  apply (init_loads sample_files [] sample_config sample_default ["music"] ["fun"; "mod"]);
    vm_compute; reflexivity.
Defined.

(** ** save *)

Lemma save_run (e : Config.Env) :
  Config.save e =
    match Config.dict_get (Config.config (Config.self e)) "bot" with
    | Config.Returns bot =>
        match Config.dict_get bot "prefixes" with
        | Config.Returns stored =>
            let s := Config.self e in
            let s' :=
              if negb (Config.truthy stored)
              then Config.set_config
                     (Config.setitem_path (Config.config s) "bot" "prefixes"
                        (Config.deref s (Config.prefixes s))) s
              else s in
            (Config.Returns tt,
             Config.mkEnv s' (<["config.json" := Config.config s']> (Config.files e))
               (Config.stdout e))
        | Config.Raises x => (Config.Raises x, e)
        end
    | Config.Raises x => (Config.Raises x, e)
    end.
Proof.
  destruct e as [s files out].
  unfold Config.save, mbind, Config.M_bind, Config.get_self, Config.lift,
    Config.modify_self, Config.write_json.
  cbn [Config.self Config.files Config.stdout].
  destruct (Config.dict_get (Config.config s) "bot") as [bot | x]; [| reflexivity].
  destruct (Config.dict_get bot "prefixes") as [stored | x]; [| reflexivity].
  destruct (negb (Config.truthy stored)); reflexivity.
Qed.

Lemma at_path_item2 (tree : Config.JSON) (group key : string) :
  Config.at_path tree group (Some key)
    = from_option id Config.JNull (Config.item2 tree group key).
Proof.
  unfold Config.at_path, Config.item2.
  destruct tree as [| | | | | fields]; try reflexivity.
  destruct (dict_lookup group fields) as [[| | | | | fields'] |]; reflexivity.
Qed.

Lemma item2_setitem_path_eq (tree : Config.JSON) (group key : string) (v : Config.JSON)
    (fields section : list (string * Config.JSON)) :
  tree = Config.JObj fields ->
  dict_lookup group fields = Some (Config.JObj section) ->
  Config.item2 (Config.setitem_path tree group key v) group key = Some v.
Proof.
  intros -> Hgroup. unfold Config.item2, Config.setitem_path.
  rewrite dict_lookup_alter_eq, Hgroup. simpl. apply dict_lookup_set_eq.
Qed.

Lemma item2_setitem_path_ne (tree : Config.JSON) (group key group' key' : string)
    (v : Config.JSON) :
  group <> group' \/ key <> key' ->
  Config.item2 (Config.setitem_path tree group key v) group' key'
    = Config.item2 tree group' key'.
Proof.
  intros Hne. unfold Config.item2, Config.setitem_path.
  destruct tree as [| | | | | fields]; try reflexivity.
  destruct (String.eqb_spec group group') as [<- | Hg].
  - rewrite dict_lookup_alter_eq.
    destruct (dict_lookup group fields) as [[| | | | | section] |]; try reflexivity.
    simpl. destruct Hne as [? | Hk]; [contradiction |].
    apply dict_lookup_set_ne, Hk.
  - rewrite dict_lookup_alter_ne by exact Hg. reflexivity.
Qed.

(** X11.  [save] needs a group [bot] in [config] that is a dictionary:
    when [config] is no dictionary, or has no [bot], or has a [bot] that is
    no dictionary, [save] raises an attribute error and writes nothing. *)
Theorem save_needs_the_bot_group (e : Config.Env) :
  Config.is_dict (Config.at_path (Config.config (Config.self e)) "bot" None) = false ->
  Config.save e = (Config.Raises Config.AttributeError, e).
Proof.
  intros Hbot. rewrite save_run.
  destruct (Config.config (Config.self e)) as [| | | | | fields]; try reflexivity.
  simpl in *. destruct (dict_lookup "bot" fields) as [bot |]; [| reflexivity].
  simpl. destruct bot; try reflexivity. discriminate.
Qed.

Lemma save_needs_the_bot_group_witness :
  let e :=
    Config.mkEnv
      (Config.set_config (Config.JObj [("extensions", Config.JObj [])]) sample_self)
      sample_files [] in
  Config.save e = (Config.Raises Config.AttributeError, e).
Proof.
  cbv zeta. apply save_needs_the_bot_group. reflexivity.
Defined.

(** X12.  With a [bot] dictionary in [config], [save] goes through and
    writes the whole of [config] to [config.json].  Before that it makes
    sure [config] has prefixes of its own: a value of [bot.prefixes] that
    is missing or falsy (null, an empty list, an empty string) is replaced
    by the prefixes the object holds, a truthy one stays.  Nothing else in
    [config] changes: it has the same keys in the same order, every key
    but [bot] has the value it had, whatever that is, and in [bot] every
    key but [prefixes] has the value it had.  [default] and the object's
    attributes stay, and no other file is written. *)
Theorem save_writes_config (e : Config.Env) (fields bot : list (string * Config.JSON)) :
  let s := Config.self e in
  let stored := from_option id Config.JNull (dict_lookup "prefixes" bot) in
  let bot' :=
    if Config.truthy stored then bot
    else dict_set "prefixes" (Config.deref s (Config.prefixes s)) bot in
  let fields' := dict_alter (fun _ => Config.JObj bot') "bot" fields in
  let s' :=
    Config.mk (Config.JObj fields') (Config.default s) (Config.prefixes s)
      (Config.extensions_enabled s) (Config.extensions_disabled s) in
  Config.config s = Config.JObj fields ->
  dict_lookup "bot" fields = Some (Config.JObj bot) ->
  Config.save e
    = (Config.Returns tt,
       Config.mkEnv s' (<["config.json" := Config.JObj fields']> (Config.files e))
         (Config.stdout e)) /\
  Config.files (snd (Config.save e)) !! "config.json" = Some (Config.JObj fields') /\
  (forall path, path <> "config.json" ->
     Config.files (snd (Config.save e)) !! path = Config.files e !! path) /\
  map fst fields' = map fst fields /\
  dict_lookup "bot" fields' = Some (Config.JObj bot') /\
  (forall group, group <> "bot" -> dict_lookup group fields' = dict_lookup group fields) /\
  dict_lookup "prefixes" bot'
    = Some (if Config.truthy stored then stored else Config.deref s (Config.prefixes s)) /\
  (forall key, key <> "prefixes" -> dict_lookup key bot' = dict_lookup key bot) /\
  (Config.truthy stored = true -> s' = s) /\
  Config.item2 (Config.config s') "bot" "prefixes"
    = Some (if Config.truthy stored then stored else Config.deref s (Config.prefixes s)) /\
  (forall group key, group <> "bot" \/ key <> "prefixes" ->
     Config.item2 (Config.config s') group key = Config.item2 (Config.config s) group key).
Proof.
  intros s stored bot' fields' s' Hconfig Hbot.
  assert (Hprefixes : dict_lookup "prefixes" bot'
            = Some (if Config.truthy stored then stored
                    else Config.deref s (Config.prefixes s))).
  { subst bot'. destruct (Config.truthy stored) eqn:Htruthy.
    - subst stored. destruct (dict_lookup "prefixes" bot) as [v |]; [reflexivity | discriminate].
    - apply dict_lookup_set_eq. }
  assert (Hkeys : forall key, key <> "prefixes" -> dict_lookup key bot' = dict_lookup key bot).
  { intros key Hkey. subst bot'. destruct (Config.truthy stored); [reflexivity |].
    apply dict_lookup_set_ne. congruence. }
  assert (Hbot' : dict_lookup "bot" fields' = Some (Config.JObj bot')).
  { subst fields'. rewrite dict_lookup_alter_eq, Hbot. reflexivity. }
  assert (Hgroups : forall group, group <> "bot" ->
            dict_lookup group fields' = dict_lookup group fields).
  { intros group Hgroup. subst fields'. apply dict_lookup_alter_ne. congruence. }
  assert (Hkept : Config.truthy stored = true -> s' = s).
  { intros Htruthy. subst s' fields' bot'. rewrite Htruthy.
    rewrite (dict_alter_same "bot" fields (Config.JObj bot) Hbot), <- Hconfig.
    destruct s; reflexivity. }
  assert (Hsave : Config.save e
            = (Config.Returns tt,
               Config.mkEnv s' (<["config.json" := Config.JObj fields']> (Config.files e))
                 (Config.stdout e))).
  { rewrite save_run. fold s.
    assert (Hget : Config.dict_get (Config.config s) "bot" = Config.Returns (Config.JObj bot)).
    { rewrite Hconfig. simpl. rewrite Hbot. reflexivity. }
    rewrite Hget. cbn [Config.dict_get]. fold stored. cbv zeta.
    destruct (Config.truthy stored) eqn:Htruthy; cbn [negb].
    - rewrite <- (Hkept eq_refl). reflexivity.
    - assert (Hset : Config.setitem_path (Config.config s) "bot" "prefixes"
                       (Config.deref s (Config.prefixes s))
                     = Config.JObj fields').
      { rewrite Hconfig. unfold Config.setitem_path. f_equal. subst fields' bot'.
        apply (dict_alter_at _ _ "bot" fields (Config.JObj bot) Hbot). reflexivity. }
      rewrite Hset. reflexivity. }
  split; [exact Hsave |]. rewrite Hsave. cbn [snd Config.files].
  split; [apply lookup_insert_eq |].
  split; [intros path Hpath; apply lookup_insert_ne; congruence |].
  split; [apply dict_alter_keys |].
  split; [exact Hbot' |]. split; [exact Hgroups |].
  split; [exact Hprefixes |]. split; [exact Hkeys |]. split; [exact Hkept |].
  unfold s'. cbn [Config.config]. unfold Config.item2. rewrite Hconfig, Hbot'.
  split; [exact Hprefixes |].
  intros group key Hne.
  destruct (String.eqb_spec group "bot") as [-> | Hgroup].
  - rewrite Hbot', Hbot. apply Hkeys. destruct Hne; congruence.
  - rewrite (Hgroups group Hgroup). reflexivity.
Qed.

(** The object of [sample_files] has no prefixes of its own in [config]:
    [save] puts those of [default] last in [bot], leaves the rest of the
    document as it is, and writes that. *)
Lemma save_writes_config_witness :
  let saved :=
    Config.JObj
      [("bot", Config.JObj [("token", Config.JStr "abc");
                            ("debug", Config.JBool true);
                            ("owner", Config.JNull);
                            ("prefixes", Config.JArr [Config.JStr "!"])]);
       ("extensions", Config.JObj [("enabled", Config.JArr [Config.JStr "music"]);
                                   ("disabled", Config.JArr [Config.JStr "fun";
                                                             Config.JStr "mod"])])] in
  Config.save (Config.mkEnv sample_self sample_files [])
    = (Config.Returns tt,
       Config.mkEnv (Config.set_config saved sample_self)
         (<["config.json" := saved]> sample_files) []) /\
  Config.files (snd (Config.save (Config.mkEnv sample_self sample_files [])))
    !! "config/config.json" = Some sample_config.
Proof.
  cbv zeta.
  destruct (save_writes_config (Config.mkEnv sample_self sample_files []) _ _
              eq_refl eq_refl) as [Hsave [_ [Hothers _]]].
  split.
  - rewrite Hsave. reflexivity.
  - rewrite Hothers by discriminate. reflexivity.
Defined.

(** ** Which files the methods write *)

Lemma keeps_bind {A B} (m : Config.M A) (f : A -> Config.M B) :
  Config.keeps_other_files m ->
  (forall a, Config.keeps_other_files (f a)) ->
  Config.keeps_other_files (m ≫= f).
Proof.
  intros Hm Hf e path Hpath. unfold mbind, Config.M_bind.
  specialize (Hm e path Hpath).
  destruct (m e) as [[a | x] e1]; simpl in *; [| exact Hm].
  rewrite (Hf a e1 path Hpath). exact Hm.
Qed.

Lemma keeps_pure {A} (m : Config.M A) :
  (forall e, Config.files (snd (m e)) = Config.files e) ->
  Config.keeps_other_files m.
Proof. intros Hm e path _. rewrite Hm. reflexivity. Qed.

Lemma keeps_write_json (doc : Config.JSON) :
  Config.keeps_other_files (Config.write_json "config.json" doc).
Proof.
  intros e path Hpath. simpl. apply lookup_insert_ne. congruence.
Qed.

Ltac keeps_files :=
  repeat first
    [ apply keeps_write_json
    | apply keeps_pure; intros ?; reflexivity
    | apply keeps_bind; [| intros ?]
    | match goal with
      | |- Config.keeps_other_files (if ?b then _ else _) => destruct b
      | |- Config.keeps_other_files (match ?x with _ => _ end) => destruct x
      end ].

Lemma save_keeps_other_files : Config.keeps_other_files Config.save.
Proof. unfold Config.save. keeps_files. Qed.

Lemma list_remove_keeps_other_files (r : Config.Ref) (x : string) :
  Config.keeps_other_files (Config.list_remove r x).
Proof. unfold Config.list_remove. keeps_files. Qed.

Lemma list_append_keeps_other_files (r : Config.Ref) (x : string) :
  Config.keeps_other_files (Config.list_append r x).
Proof. unfold Config.list_append. keeps_files. Qed.

Lemma enable_extension_keeps_other_files (extension : string) :
  Config.keeps_other_files (Config.enable_extension extension).
Proof.
  unfold Config.enable_extension.
  repeat first
    [ apply save_keeps_other_files
    | apply list_remove_keeps_other_files
    | apply list_append_keeps_other_files
    | progress keeps_files ].
Qed.

Lemma disable_extension_keeps_other_files (extension : string) :
  Config.keeps_other_files (Config.disable_extension extension).
Proof.
  unfold Config.disable_extension.
  repeat first
    [ apply save_keeps_other_files
    | apply list_remove_keeps_other_files
    | apply list_append_keeps_other_files
    | progress keeps_files ].
Qed.

(** What [__init__] gives depends on the two files it reads only. *)
Lemma __init___reads_two_files (s : Config.t) (files files' : gmap string Config.JSON)
    (out : list string) :
  files' !! "config/config.json" = files !! "config/config.json" ->
  files' !! "config/default.json" = files !! "config/default.json" ->
  fst (Config.__init__ (Config.mkEnv s files' out))
    = fst (Config.__init__ (Config.mkEnv s files out))
  /\ Config.self (snd (Config.__init__ (Config.mkEnv s files' out)))
     = Config.self (snd (Config.__init__ (Config.mkEnv s files out)))
  /\ Config.stdout (snd (Config.__init__ (Config.mkEnv s files' out)))
     = Config.stdout (snd (Config.__init__ (Config.mkEnv s files out))).
Proof.
  intros Hc Hd.
  destruct (files !! "config/config.json") as [c |] eqn:Hfc.
  - destruct (files !! "config/default.json") as [d |] eqn:Hfd.
    + rewrite (__init___run s files out c d Hfc Hfd).
      rewrite (__init___run s files' out c d Hc Hd). cbv zeta.
      repeat match goal with
             | |- context [match ?x with Config.Returns _ => _ | Config.Raises _ => _ end] =>
                 destruct x
             end; repeat split.
    + unfold Config.__init__, mbind, Config.M_bind. cbn [Config.files].
      rewrite Hc, Hd, Hfc, Hfd. repeat split.
  - unfold Config.__init__, mbind, Config.M_bind. cbn [Config.files].
    rewrite Hc, Hfc. repeat split.
Qed.

(** X13.  [save], [enable_extension] and [disable_extension] write no
    file but [config.json], however they end; the two files the
    constructor reads, [config/config.json] and [config/default.json], are
    never written. *)
Theorem only_config_json_is_written (extension : string) (e : Config.Env) (path : string) :
  path <> "config.json" ->
  Config.files (snd (Config.save e)) !! path = Config.files e !! path
  /\ Config.files (snd (Config.enable_extension extension e)) !! path = Config.files e !! path
  /\ Config.files (snd (Config.disable_extension extension e)) !! path = Config.files e !! path.
Proof.
  intros Hpath. split; [| split].
  - apply save_keeps_other_files, Hpath.
  - apply enable_extension_keeps_other_files, Hpath.
  - apply disable_extension_keeps_other_files, Hpath.
Qed.

Lemma only_config_json_is_written_witness :
  let e := Config.mkEnv sample_self sample_files [] in
  Config.files (snd (Config.enable_extension "fun" e)) !! "config/config.json"
    = Some sample_config.
Proof.
  cbv zeta.
  destruct (only_config_json_is_written "fun" (Config.mkEnv sample_self sample_files [])
              "config/config.json") as [_ [Henable _]]; [discriminate |].
  rewrite Henable. reflexivity.
Defined.

(** A [reload] of an object that a method has used, against a [reload] of
    the object as it was, when the method has written neither of the two
    files the constructor reads. *)
Lemma reload_after (e e' : Config.Env) :
  Config.files e' !! "config/config.json" = Config.files e !! "config/config.json" ->
  Config.files e' !! "config/default.json" = Config.files e !! "config/default.json" ->
  fst (Config.reload e') = fst (Config.reload e)
  /\ (exists lines,
        Config.stdout (snd (Config.reload e)) = Config.stdout e ++ lines /\
        Config.stdout (snd (Config.reload e')) = Config.stdout e' ++ lines)
  /\ (fst (Config.reload e) = Config.Returns tt ->
      Config.self (snd (Config.reload e')) = Config.self (snd (Config.reload e))).
Proof.
  intros Hc Hd. unfold Config.reload. destruct e as [s files out], e' as [s' files' out'].
  apply __init___forgets; assumption.
Qed.

(** X14.  What [enable_extension] and [disable_extension] change does not
    outlive the object: they save to [config.json], and the constructor
    reads [config/config.json].  A new [Config()] after them ends as it
    would have ended before them, with the same object and the same
    output.  So does a [reload] of the object they have changed: it ends
    as a [reload] before them would have, prints the same lines, and when
    it returns it leaves the same object. *)
Theorem changes_do_not_survive_reload (extension : string) (e : Config.Env)
    (out : list string) :
  let enabled := snd (Config.enable_extension extension e) in
  let disabled := snd (Config.disable_extension extension e) in
  (fst (Config.new (Config.files enabled) out) = fst (Config.new (Config.files e) out)
   /\ Config.stdout (snd (Config.new (Config.files enabled) out))
      = Config.stdout (snd (Config.new (Config.files e) out))
   /\ fst (Config.new (Config.files disabled) out) = fst (Config.new (Config.files e) out)
   /\ Config.stdout (snd (Config.new (Config.files disabled) out))
      = Config.stdout (snd (Config.new (Config.files e) out)))
  /\
  (fst (Config.reload enabled) = fst (Config.reload e)
   /\ (exists lines,
         Config.stdout (snd (Config.reload e)) = Config.stdout e ++ lines /\
         Config.stdout (snd (Config.reload enabled)) = Config.stdout enabled ++ lines)
   /\ (fst (Config.reload e) = Config.Returns tt ->
       Config.self (snd (Config.reload enabled)) = Config.self (snd (Config.reload e))))
  /\
  (fst (Config.reload disabled) = fst (Config.reload e)
   /\ (exists lines,
         Config.stdout (snd (Config.reload e)) = Config.stdout e ++ lines /\
         Config.stdout (snd (Config.reload disabled)) = Config.stdout disabled ++ lines)
   /\ (fst (Config.reload e) = Config.Returns tt ->
       Config.self (snd (Config.reload disabled)) = Config.self (snd (Config.reload e)))).
Proof.
  intros enabled disabled.
  assert (Hnew : forall files',
            files' !! "config/config.json" = Config.files e !! "config/config.json" ->
            files' !! "config/default.json" = Config.files e !! "config/default.json" ->
            fst (Config.new files' out) = fst (Config.new (Config.files e) out)
            /\ Config.stdout (snd (Config.new files' out))
               = Config.stdout (snd (Config.new (Config.files e) out))).
  { intros files' Hc Hd.
    destruct (__init___reads_two_files Config.blank (Config.files e) files' out Hc Hd)
      as [Hfst [Hself Hout]].
    unfold Config.new.
    destruct (Config.__init__ (Config.mkEnv Config.blank files' out)) as [[[] | x] e1];
      destruct (Config.__init__ (Config.mkEnv Config.blank (Config.files e) out))
        as [[[] | y] e2];
      simpl in *; try discriminate; split; congruence. }
  assert (Hec : Config.files enabled !! "config/config.json"
                = Config.files e !! "config/config.json")
    by (apply enable_extension_keeps_other_files; discriminate).
  assert (Hed : Config.files enabled !! "config/default.json"
                = Config.files e !! "config/default.json")
    by (apply enable_extension_keeps_other_files; discriminate).
  assert (Hdc : Config.files disabled !! "config/config.json"
                = Config.files e !! "config/config.json")
    by (apply disable_extension_keeps_other_files; discriminate).
  assert (Hdd : Config.files disabled !! "config/default.json"
                = Config.files e !! "config/default.json")
    by (apply disable_extension_keeps_other_files; discriminate).
  destruct (Hnew (Config.files enabled) Hec Hed) as [H1 H2].
  destruct (Hnew (Config.files disabled) Hdc Hdd) as [H3 H4].
  split; [repeat split; assumption |].
  split; apply reload_after; assumption.
Qed.

(** The object of [sample_files] enables "fun" and later disables "music":
    each time the lists in memory and [config.json] change, and each time
    a [reload] brings back the object and the two lines of a new
    [Config()]. *)
Lemma changes_do_not_survive_reload_witness :
  let e := Config.mkEnv sample_self sample_files [] in
  let enabled := snd (Config.enable_extension "fun" e) in
  let disabled := snd (Config.disable_extension "music" e) in
  Config.self enabled <> sample_self /\
  Config.self disabled <> sample_self /\
  Config.reload e = (Config.Returns tt, snd (Config.reload e)) /\
  Config.self (snd (Config.reload e)) = sample_self /\
  fst (Config.reload enabled) = Config.Returns tt /\
  Config.self (snd (Config.reload enabled)) = sample_self /\
  fst (Config.reload disabled) = Config.Returns tt /\
  Config.self (snd (Config.reload disabled)) = sample_self /\
  fst (Config.new (Config.files enabled) []) = Config.Returns sample_self.
Proof.
  cbv zeta.
  set (e := Config.mkEnv sample_self sample_files []).
  assert (Hreload : fst (Config.reload e) = Config.Returns tt) by (vm_compute; reflexivity).
  assert (Hself : Config.self (snd (Config.reload e)) = sample_self)
    by (vm_compute; reflexivity).
  assert (Hnew : fst (Config.new (Config.files e) []) = Config.Returns sample_self)
    by (vm_compute; reflexivity).
  destruct (changes_do_not_survive_reload "fun" e [])
    as [[Hnew_enabled _] [[Hfst_enabled [_ Hself_enabled]] _]].
  destruct (changes_do_not_survive_reload "music" e [])
    as [_ [_ [Hfst_disabled [_ Hself_disabled]]]].
  split.
  { intros Hsame. apply (f_equal Config.config) in Hsame.
    vm_compute in Hsame. discriminate Hsame. }
  split.
  { intros Hsame. apply (f_equal Config.config) in Hsame.
    vm_compute in Hsame. discriminate Hsame. }
  split; [destruct (Config.reload e) as [r e1]; simpl in *; rewrite Hreload; reflexivity |].
  split; [exact Hself |].
  split; [rewrite Hfst_enabled; exact Hreload |].
  split; [rewrite (Hself_enabled Hreload); exact Hself |].
  split; [rewrite Hfst_disabled; exact Hreload |].
  split; [rewrite (Hself_disabled Hreload); exact Hself |].
  rewrite Hnew_enabled. exact Hnew.
Defined.

(** ** Lists changed in place *)

Lemma item2_alter_path_eq (f : Config.JSON -> Config.JSON) (tree : Config.JSON)
    (group key : string) (v : Config.JSON) :
  Config.item2 tree group key = Some v ->
  Config.item2 (Config.alter_path f tree group (Some key)) group key = Some (f v).
Proof.
  unfold Config.item2, Config.alter_path.
  destruct tree as [| | | | | fields]; try discriminate.
  rewrite dict_lookup_alter_eq.
  destruct (dict_lookup group fields) as [[| | | | | section] |]; try discriminate.
  simpl. intros Hv. rewrite dict_lookup_alter_eq, Hv. reflexivity.
Qed.

Lemma item2_alter_path_ne (f : Config.JSON -> Config.JSON) (tree : Config.JSON)
    (group key group' key' : string) :
  group <> group' \/ key <> key' ->
  Config.item2 (Config.alter_path f tree group (Some key)) group' key'
    = Config.item2 tree group' key'.
Proof.
  intros Hne. unfold Config.item2, Config.alter_path.
  destruct tree as [| | | | | fields]; try reflexivity.
  destruct (String.eqb_spec group group') as [<- | Hg].
  - rewrite dict_lookup_alter_eq.
    destruct (dict_lookup group fields) as [[| | | | | section] |]; try reflexivity.
    simpl. destruct Hne as [? | Hk]; [contradiction |].
    apply dict_lookup_alter_ne, Hk.
  - rewrite dict_lookup_alter_ne by exact Hg. reflexivity.
Qed.

Lemma group_alter_path_ne (f : Config.JSON -> Config.JSON) (tree : Config.JSON)
    (group group' : string) (key : option string) :
  group <> group' ->
  Config.at_path (Config.alter_path f tree group key) group' None
    = Config.at_path tree group' None.
Proof.
  intros Hne. unfold Config.at_path, Config.alter_path.
  destruct tree as [| | | | | fields]; try reflexivity.
  rewrite dict_lookup_alter_ne by exact Hne. reflexivity.
Qed.

Lemma deref_item2 (s : Config.t) (r : Config.Ref) (group key : string)
    (items : list Config.JSON) :
  Config.refers_to r group key ->
  Config.deref s r = Config.JArr items ->
  (r = Config.InConfig group (Some key) /\
   Config.item2 (Config.config s) group key = Some (Config.JArr items))
  \/
  (r = Config.InDefault group (Some key) /\
   Config.item2 (Config.default s) group key = Some (Config.JArr items)).
Proof.
  intros [-> | ->] Hv; [left | right]; (split; [reflexivity |]);
    simpl in Hv; rewrite at_path_item2 in Hv;
    match goal with
    | |- ?x = _ => destruct x; simpl in Hv; [congruence | discriminate]
    end.
Qed.

Lemma deref_mutate_same (s : Config.t) (r : Config.Ref) (group key : string)
    (f : Config.JSON -> Config.JSON) (items : list Config.JSON) :
  Config.refers_to r group key ->
  Config.deref s r = Config.JArr items ->
  Config.deref (Config.mutate r f s) r = f (Config.JArr items).
Proof.
  intros Hr Hv.
  destruct (deref_item2 s r group key items Hr Hv) as [[-> Hitem] | [-> Hitem]];
    simpl; rewrite at_path_item2, (item2_alter_path_eq f _ _ _ _ Hitem); reflexivity.
Qed.

Lemma deref_mutate_other (s : Config.t) (r r' : Config.Ref) (group key group' key' : string)
    (f : Config.JSON -> Config.JSON) :
  Config.refers_to r group key ->
  Config.refers_to r' group' key' ->
  group <> group' \/ key <> key' ->
  Config.deref (Config.mutate r f s) r' = Config.deref s r'.
Proof.
  intros [-> | ->] [-> | ->] Hne; simpl; try reflexivity;
    rewrite !at_path_item2, item2_alter_path_ne by exact Hne; reflexivity.
Qed.

Lemma mutate_keeps_bot (s : Config.t) (r : Config.Ref) (group key : string)
    (f : Config.JSON -> Config.JSON) :
  Config.refers_to r group key ->
  group <> "bot" ->
  Config.at_path (Config.config (Config.mutate r f s)) "bot" None
    = Config.at_path (Config.config s) "bot" None.
Proof.
  intros [-> | ->] Hne; simpl; [| reflexivity].
  apply group_alter_path_ne, Hne.
Qed.

Lemma mutate_keeps_refs (s : Config.t) (r : Config.Ref) (f : Config.JSON -> Config.JSON) :
  Config.prefixes (Config.mutate r f s) = Config.prefixes s
  /\ Config.extensions_enabled (Config.mutate r f s) = Config.extensions_enabled s
  /\ Config.extensions_disabled (Config.mutate r f s) = Config.extensions_disabled s.
Proof. destruct r; repeat split. Qed.

(** [save] when [config] has its [bot] dictionary. *)
Lemma save_run_bot (e : Config.Env) (bot : list (string * Config.JSON)) :
  Config.at_path (Config.config (Config.self e)) "bot" None = Config.JObj bot ->
  exists s',
    Config.save e
      = (Config.Returns tt,
         Config.mkEnv s' (<["config.json" := Config.config s']> (Config.files e))
           (Config.stdout e)) /\
    (forall r group key,
       Config.refers_to r group key -> group <> "bot" ->
       Config.deref s' r = Config.deref (Config.self e) r) /\
    (exists bot', Config.at_path (Config.config s') "bot" None = Config.JObj bot') /\
    Config.extensions_enabled s' = Config.extensions_enabled (Config.self e) /\
    Config.extensions_disabled s' = Config.extensions_disabled (Config.self e) /\
    (forall group key, group <> "bot" ->
       Config.item2 (Config.config s') group key
         = Config.item2 (Config.config (Config.self e)) group key).
Proof.
  intros Hbot. rewrite save_run.
  set (s := Config.self e) in *.
  destruct (Config.config s) as [| | | | | fields] eqn:Hconfig; try discriminate.
  unfold Config.at_path in Hbot.
  destruct (dict_lookup "bot" fields) as [v |] eqn:Hlookup; [| discriminate].
  assert (Hv : v = Config.JObj bot) by (destruct v; exact Hbot).
  subst v. simpl. rewrite Hlookup. simpl.
  destruct (negb (Config.truthy _)).
  - eexists. split; [reflexivity |].
    split; [| split; [| split; [reflexivity | split; [reflexivity |]]]].
    + intros r group key [-> | ->] Hne; simpl; [| reflexivity].
      rewrite Hconfig, !at_path_item2.
      rewrite item2_setitem_path_ne by (left; congruence). reflexivity.
    + rewrite Hconfig. simpl. rewrite dict_lookup_alter_eq, Hlookup. simpl. eauto.
    + intros group key Hne. simpl. rewrite Hconfig.
      apply item2_setitem_path_ne. left. congruence.
  - exists s. split; [reflexivity |]. split; [reflexivity |].
    split; [| split; [reflexivity | split; [reflexivity |]]].
    + rewrite Hconfig. simpl. rewrite Hlookup. eauto.
    + intros group key Hne. rewrite Hconfig. reflexivity.
Qed.

Lemma list_remove_run (e : Config.Env) (r : Config.Ref) (x : string)
    (items : list Config.JSON) :
  Config.deref (Config.self e) r = Config.JArr items ->
  existsb (Config.is_str x) items = true ->
  Config.list_remove r x e
    = (Config.Returns tt,
       Config.mkEnv
         (Config.mutate r (fun _ => Config.JArr (Config.remove_first x items)) (Config.self e))
         (Config.files e) (Config.stdout e)).
Proof.
  intros Hitems Hin. unfold Config.list_remove, mbind, Config.M_bind, Config.get_self.
  rewrite Hitems, Hin. reflexivity.
Qed.

Lemma list_append_run (e : Config.Env) (r : Config.Ref) (x : string)
    (items : list Config.JSON) :
  Config.deref (Config.self e) r = Config.JArr items ->
  Config.list_append r x e
    = (Config.Returns tt,
       Config.mkEnv
         (Config.mutate r (fun _ => Config.JArr (items ++ [Config.JStr x])) (Config.self e))
         (Config.files e) (Config.stdout e)).
Proof.
  intros Hitems. unfold Config.list_append, mbind, Config.M_bind, Config.get_self.
  rewrite Hitems. reflexivity.
Qed.

Lemma mutate_keeps_config_item (s : Config.t) (r : Config.Ref)
    (f : Config.JSON -> Config.JSON) (group key group' key' : string) :
  Config.refers_to r group key ->
  r <> Config.InConfig group' (Some key') ->
  Config.item2 (Config.config (Config.mutate r f s)) group' key'
    = Config.item2 (Config.config s) group' key'.
Proof.
  intros [-> | ->] Hne; simpl; [| reflexivity].
  apply item2_alter_path_ne.
  destruct (String.eqb_spec group group') as [<- | Hg]; [| left; exact Hg].
  destruct (String.eqb_spec key key') as [<- | Hk]; [| right; exact Hk].
  contradiction.
Qed.

(** An extension taken out of the list [src] refers to and put at the end
    of the list [dst] refers to, and the result saved: the common part of
    [enable_extension] and [disable_extension]. *)
Lemma move_run (e : Config.Env) (src dst : Config.Ref) (ksrc kdst extension : string)
    (xs ys : list Config.JSON) (bot : list (string * Config.JSON)) :
  let s := Config.self e in
  Config.refers_to src "extensions" ksrc ->
  Config.refers_to dst "extensions" kdst ->
  ksrc <> kdst ->
  Config.deref s src = Config.JArr xs ->
  Config.deref s dst = Config.JArr ys ->
  existsb (Config.is_str extension) xs = true ->
  Config.at_path (Config.config s) "bot" None = Config.JObj bot ->
  exists s',
    (Config.list_remove src extension ;;
     Config.list_append dst extension ;;
     Config.save) e
      = (Config.Returns tt,
         Config.mkEnv s' (<["config.json" := Config.config s']> (Config.files e))
           (Config.stdout e)) /\
    Config.deref s' src = Config.JArr (Config.remove_first extension xs) /\
    Config.deref s' dst = Config.JArr (ys ++ [Config.JStr extension]) /\
    (exists bot', Config.at_path (Config.config s') "bot" None = Config.JObj bot') /\
    Config.extensions_enabled s' = Config.extensions_enabled s /\
    Config.extensions_disabled s' = Config.extensions_disabled s /\
    (forall group key, group <> "bot" ->
       src <> Config.InConfig group (Some key) ->
       dst <> Config.InConfig group (Some key) ->
       Config.item2 (Config.config s') group key = Config.item2 (Config.config s) group key).
Proof.
  intros s Hsrc Hdst Hne Hxs Hys Hin Hbot.
  set (s1 := Config.mutate src (fun _ => Config.JArr (Config.remove_first extension xs)) s).
  set (s2 := Config.mutate dst (fun _ => Config.JArr (ys ++ [Config.JStr extension])) s1).
  assert (Hys1 : Config.deref s1 dst = Config.JArr ys).
  { unfold s1. rewrite (deref_mutate_other s src dst _ _ _ _ _ Hsrc Hdst) by (right; exact Hne).
    exact Hys. }
  assert (Hbot2 : Config.at_path (Config.config s2) "bot" None = Config.JObj bot).
  { unfold s2, s1.
    rewrite (mutate_keeps_bot _ dst _ _ _ Hdst) by discriminate.
    rewrite (mutate_keeps_bot _ src _ _ _ Hsrc) by discriminate. exact Hbot. }
  destruct (save_run_bot (Config.mkEnv s2 (Config.files e) (Config.stdout e)) bot Hbot2)
    as [s' [Hsave [Hderef [Hbot' [Hen [Hdis Hitems]]]]]].
  cbn [Config.self Config.files Config.stdout] in *.
  exists s'. split; [| split; [| split; [| split; [| split; [| split]]]]].
  - unfold mbind, Config.M_bind.
    rewrite (list_remove_run e src extension xs Hxs Hin). fold s s1.
    rewrite (list_append_run (Config.mkEnv s1 _ _) dst extension ys Hys1).
    cbn [Config.self Config.files Config.stdout]. fold s2. exact Hsave.
  - rewrite (Hderef src _ _ Hsrc) by discriminate. unfold s2.
    assert (Hne' : kdst <> ksrc) by congruence.
    rewrite (deref_mutate_other s1 dst src _ _ _ _ _ Hdst Hsrc) by (right; exact Hne').
    unfold s1. rewrite (deref_mutate_same s src _ _ _ xs Hsrc Hxs). reflexivity.
  - rewrite (Hderef dst _ _ Hdst) by discriminate. unfold s2.
    rewrite (deref_mutate_same s1 dst _ _ _ ys Hdst Hys1). reflexivity.
  - exact Hbot'.
  - rewrite Hen. unfold s2, s1.
    rewrite (proj1 (proj2 (mutate_keeps_refs _ dst _))).
    apply (mutate_keeps_refs _ src _).
  - rewrite Hdis. unfold s2, s1.
    rewrite (proj2 (proj2 (mutate_keeps_refs _ dst _))).
    apply (mutate_keeps_refs _ src _).
  - intros group key Hgroup Hs Hd. rewrite Hitems by exact Hgroup. unfold s2, s1.
    rewrite (mutate_keeps_config_item _ dst _ _ _ _ _ Hdst Hd).
    apply (mutate_keeps_config_item _ src _ _ _ _ _ Hsrc Hs).
Qed.

(** ** enable_extension and disable_extension *)

Lemma enable_extension_step (e : Config.Env) (extension : string) (disabled : list Config.JSON) :
  let s := Config.self e in
  Config.deref s (Config.extensions_disabled s) = Config.JArr disabled ->
  Config.enable_extension extension e =
    if existsb (Config.is_str extension) disabled then
      (Config.list_remove (Config.extensions_disabled s) extension ;;
       Config.list_append (Config.extensions_enabled s) extension ;;
       Config.save) e
    else
      match Config.contains (Config.deref s (Config.extensions_enabled s)) extension with
      | Config.Returns true => Config.print "Extension is already enabled." e
      | Config.Returns false => Config.print "Extension {extension} not found" e
      | Config.Raises x => (Config.Raises x, e)
      end.
Proof.
  intros s Hdis. unfold Config.enable_extension.
  unfold mbind at 1 2. unfold Config.M_bind at 1 2. unfold Config.get_self, Config.lift.
  fold s. rewrite Hdis. cbn [Config.contains].
  destruct (existsb (Config.is_str extension) disabled); [reflexivity |].
  unfold mbind, Config.M_bind.
  destruct (Config.contains _ extension) as [[] | x]; reflexivity.
Qed.

Lemma disable_extension_step (e : Config.Env) (extension : string) (enabled : list Config.JSON) :
  let s := Config.self e in
  Config.deref s (Config.extensions_enabled s) = Config.JArr enabled ->
  Config.disable_extension extension e =
    if existsb (Config.is_str extension) enabled then
      (Config.list_remove (Config.extensions_enabled s) extension ;;
       Config.list_append (Config.extensions_disabled s) extension ;;
       Config.save) e
    else
      match Config.contains (Config.deref s (Config.extensions_disabled s)) extension with
      | Config.Returns true => Config.print "Extension is already disabled." e
      | Config.Returns false => Config.print "Extension {extension} not found" e
      | Config.Raises x => (Config.Raises x, e)
      end.
Proof.
  intros s Hen. unfold Config.disable_extension.
  unfold mbind at 1 2. unfold Config.M_bind at 1 2. unfold Config.get_self, Config.lift.
  fold s. rewrite Hen. cbn [Config.contains].
  destruct (existsb (Config.is_str extension) enabled); [reflexivity |].
  unfold mbind, Config.M_bind.
  destruct (Config.contains _ extension) as [[] | x]; reflexivity.
Qed.

Lemma existsb_is_str_app (x : string) (items : list Config.JSON) :
  existsb (Config.is_str x) (items ++ [Config.JStr x]) = true.
Proof.
  rewrite existsb_app. simpl. rewrite String.eqb_refl.
  destruct (existsb (Config.is_str x) items); reflexivity.
Qed.

Lemma remove_first_app (x : string) (items : list Config.JSON) :
  existsb (Config.is_str x) items = false ->
  Config.remove_first x (items ++ [Config.JStr x]) = items.
Proof.
  induction items as [| v items IH]; simpl.
  - rewrite String.eqb_refl. reflexivity.
  - intros Hnone. apply orb_false_elim in Hnone. destruct Hnone as [Hv Hitems].
    rewrite Hv, (IH Hitems). reflexivity.
Qed.

(** A configuration whose two lists of extensions are lists of the
    documents, and whose [config] has its [bot] dictionary. *)
Lemma enable_extension_run (e : Config.Env) (extension : string)
    (enabled disabled : list Config.JSON) (bot : list (string * Config.JSON)) :
  let s := Config.self e in
  Config.refers_to (Config.extensions_enabled s) "extensions" "enabled" ->
  Config.refers_to (Config.extensions_disabled s) "extensions" "disabled" ->
  Config.deref s (Config.extensions_enabled s) = Config.JArr enabled ->
  Config.deref s (Config.extensions_disabled s) = Config.JArr disabled ->
  existsb (Config.is_str extension) disabled = true ->
  Config.at_path (Config.config s) "bot" None = Config.JObj bot ->
  exists s',
    Config.enable_extension extension e
      = (Config.Returns tt,
         Config.mkEnv s' (<["config.json" := Config.config s']> (Config.files e))
           (Config.stdout e)) /\
    Config.extensions_enabled s' = Config.extensions_enabled s /\
    Config.extensions_disabled s' = Config.extensions_disabled s /\
    Config.deref s' (Config.extensions_enabled s')
      = Config.JArr (enabled ++ [Config.JStr extension]) /\
    Config.deref s' (Config.extensions_disabled s')
      = Config.JArr (Config.remove_first extension disabled) /\
    (exists bot', Config.at_path (Config.config s') "bot" None = Config.JObj bot') /\
    (forall group key, group <> "bot" ->
       Config.extensions_disabled s <> Config.InConfig group (Some key) ->
       Config.extensions_enabled s <> Config.InConfig group (Some key) ->
       Config.item2 (Config.config s') group key = Config.item2 (Config.config s) group key).
Proof.
  intros s Hre Hrd Hen Hdis Hin Hbot.
  rewrite (enable_extension_step e extension disabled Hdis), Hin. fold s.
  destruct (move_run e _ _ "disabled" "enabled" extension disabled enabled bot
              Hrd Hre ltac:(discriminate) Hdis Hen Hin Hbot)
    as [s' [Hrun [Hsrc [Hdst [Hbot' [Hen' [Hdis' Hitems]]]]]]].
  exists s'. rewrite Hen', Hdis'. fold s. repeat split; assumption.
Qed.

Lemma disable_extension_run (e : Config.Env) (extension : string)
    (enabled disabled : list Config.JSON) (bot : list (string * Config.JSON)) :
  let s := Config.self e in
  Config.refers_to (Config.extensions_enabled s) "extensions" "enabled" ->
  Config.refers_to (Config.extensions_disabled s) "extensions" "disabled" ->
  Config.deref s (Config.extensions_enabled s) = Config.JArr enabled ->
  Config.deref s (Config.extensions_disabled s) = Config.JArr disabled ->
  existsb (Config.is_str extension) enabled = true ->
  Config.at_path (Config.config s) "bot" None = Config.JObj bot ->
  exists s',
    Config.disable_extension extension e
      = (Config.Returns tt,
         Config.mkEnv s' (<["config.json" := Config.config s']> (Config.files e))
           (Config.stdout e)) /\
    Config.extensions_enabled s' = Config.extensions_enabled s /\
    Config.extensions_disabled s' = Config.extensions_disabled s /\
    Config.deref s' (Config.extensions_enabled s')
      = Config.JArr (Config.remove_first extension enabled) /\
    Config.deref s' (Config.extensions_disabled s')
      = Config.JArr (disabled ++ [Config.JStr extension]) /\
    (exists bot', Config.at_path (Config.config s') "bot" None = Config.JObj bot').
Proof.
  intros s Hre Hrd Hen Hdis Hin Hbot.
  rewrite (disable_extension_step e extension enabled Hen), Hin. fold s.
  destruct (move_run e _ _ "enabled" "disabled" extension enabled disabled bot
              Hre Hrd ltac:(discriminate) Hen Hdis Hin Hbot)
    as [s' [Hrun [Hsrc [Hdst [Hbot' [Hen' [Hdis' _]]]]]]].
  exists s'. rewrite Hen', Hdis'. fold s. repeat split; assumption.
Qed.

Lemma length_remove_first (x : string) (items : list Config.JSON) :
  existsb (Config.is_str x) items = true ->
  S (length (Config.remove_first x items)) = length items.
Proof.
  induction items as [| v items IH]; simpl; [discriminate |].
  destruct (Config.is_str x v); simpl; [reflexivity |].
  intros Hin. rewrite (IH Hin). reflexivity.
Qed.

(** X15.  Take an object whose lists of enabled and of disabled
    extensions are lists of the documents, and whose [config] has its [bot]
    dictionary.  [enable_extension] of an extension that is in the
    disabled list takes its first occurrence out of that list, puts it at
    the end of the enabled list, and saves; [disable_extension] of an
    extension in the enabled list does the same the other way round.
    Either way the two lists together keep their number of items.
    [enable_extension] looks at the disabled list only: an extension that
    is in both lists is added to the enabled list once more. *)
Theorem extension_moves_between_lists (e : Config.Env) (extension : string)
    (enabled disabled : list Config.JSON) (bot : list (string * Config.JSON)) :
  let s := Config.self e in
  Config.refers_to (Config.extensions_enabled s) "extensions" "enabled" ->
  Config.refers_to (Config.extensions_disabled s) "extensions" "disabled" ->
  Config.deref s (Config.extensions_enabled s) = Config.JArr enabled ->
  Config.deref s (Config.extensions_disabled s) = Config.JArr disabled ->
  Config.at_path (Config.config s) "bot" None = Config.JObj bot ->
  (existsb (Config.is_str extension) disabled = true ->
     exists s' enabled' disabled',
       Config.enable_extension extension e
         = (Config.Returns tt,
            Config.mkEnv s' (<["config.json" := Config.config s']> (Config.files e))
              (Config.stdout e)) /\
       Config.deref s' (Config.extensions_enabled s') = Config.JArr enabled' /\
       Config.deref s' (Config.extensions_disabled s') = Config.JArr disabled' /\
       enabled' = enabled ++ [Config.JStr extension] /\
       disabled' = Config.remove_first extension disabled /\
       (length enabled' + length disabled' = length enabled + length disabled)%nat)
  /\
  (existsb (Config.is_str extension) enabled = true ->
     exists s' enabled' disabled',
       Config.disable_extension extension e
         = (Config.Returns tt,
            Config.mkEnv s' (<["config.json" := Config.config s']> (Config.files e))
              (Config.stdout e)) /\
       Config.deref s' (Config.extensions_enabled s') = Config.JArr enabled' /\
       Config.deref s' (Config.extensions_disabled s') = Config.JArr disabled' /\
       enabled' = Config.remove_first extension enabled /\
       disabled' = disabled ++ [Config.JStr extension] /\
       (length enabled' + length disabled' = length enabled + length disabled)%nat).
Proof.
  intros s Hre Hrd Hen Hdis Hbot. split; intros Hin.
  - destruct (enable_extension_run e extension enabled disabled bot Hre Hrd Hen Hdis Hin Hbot)
      as [s' [Hrun [_ [_ [Hen' [Hdis' _]]]]]].
    exists s', (enabled ++ [Config.JStr extension]), (Config.remove_first extension disabled).
    repeat split; try assumption.
    pose proof (length_remove_first extension disabled Hin) as Hlen.
    rewrite length_app. simpl. lia.
  - destruct (disable_extension_run e extension enabled disabled bot Hre Hrd Hen Hdis Hin Hbot)
      as [s' [Hrun [_ [_ [Hen' [Hdis' _]]]]]].
    exists s', (Config.remove_first extension enabled), (disabled ++ [Config.JStr extension]).
    repeat split; try assumption.
    pose proof (length_remove_first extension enabled Hin) as Hlen.
    rewrite length_app. simpl. lia.
Qed.

Lemma extension_moves_between_lists_witness :
  let e := Config.mkEnv sample_self sample_files [] in
  exists s',
    fst (Config.enable_extension "fun" e) = Config.Returns tt /\
    Config.self (snd (Config.enable_extension "fun" e)) = s' /\
    Config.deref s' (Config.extensions_enabled s')
      = Config.JArr [Config.JStr "music"; Config.JStr "fun"] /\
    Config.deref s' (Config.extensions_disabled s') = Config.JArr [Config.JStr "mod"].
Proof.
  cbv zeta.
  destruct (extension_moves_between_lists (Config.mkEnv sample_self sample_files []) "fun"
              [Config.JStr "music"] [Config.JStr "fun"; Config.JStr "mod"]
              [("token", Config.JStr "abc"); ("debug", Config.JBool true);
               ("owner", Config.JNull)])
    as [Henable _];
    [left; reflexivity | left; reflexivity | reflexivity | reflexivity | reflexivity |].
  destruct (Henable eq_refl) as [s' [en [dis [Hrun [Hen [Hdis [-> [-> _]]]]]]]].
  exists s'. rewrite Hrun. repeat split; assumption.
Defined.

(** X16.  Under the same conditions, enabling an extension that is
    disabled and not yet enabled, and disabling it again, gives back the
    enabled list exactly as it was; the disabled list has the same items
    as before, with the extension moved to its end. *)
Theorem enable_then_disable (e : Config.Env) (extension : string)
    (enabled disabled : list Config.JSON) (bot : list (string * Config.JSON)) :
  let s := Config.self e in
  Config.refers_to (Config.extensions_enabled s) "extensions" "enabled" ->
  Config.refers_to (Config.extensions_disabled s) "extensions" "disabled" ->
  Config.deref s (Config.extensions_enabled s) = Config.JArr enabled ->
  Config.deref s (Config.extensions_disabled s) = Config.JArr disabled ->
  Config.at_path (Config.config s) "bot" None = Config.JObj bot ->
  existsb (Config.is_str extension) disabled = true ->
  existsb (Config.is_str extension) enabled = false ->
  exists e1 e2,
    Config.enable_extension extension e = (Config.Returns tt, e1) /\
    Config.disable_extension extension e1 = (Config.Returns tt, e2) /\
    Config.deref (Config.self e2) (Config.extensions_enabled (Config.self e2))
      = Config.JArr enabled /\
    Config.deref (Config.self e2) (Config.extensions_disabled (Config.self e2))
      = Config.JArr (Config.remove_first extension disabled ++ [Config.JStr extension]).
Proof.
  intros s Hre Hrd Hen Hdis Hbot Hin Hout.
  destruct (enable_extension_run e extension enabled disabled bot Hre Hrd Hen Hdis Hin Hbot)
    as [s1 [Hrun1 [Hre1 [Hrd1 [Hen1 [Hdis1 [[bot1 Hbot1] _]]]]]]].
  fold s in Hre1, Hrd1.
  set (e1 := Config.mkEnv s1 (<["config.json" := Config.config s1]> (Config.files e))
               (Config.stdout e)) in *.
  assert (Hre' : Config.refers_to (Config.extensions_enabled (Config.self e1))
                   "extensions" "enabled") by (simpl; rewrite Hre1; exact Hre).
  assert (Hrd' : Config.refers_to (Config.extensions_disabled (Config.self e1))
                   "extensions" "disabled") by (simpl; rewrite Hrd1; exact Hrd).
  destruct (disable_extension_run e1 extension _ _ bot1 Hre' Hrd' Hen1 Hdis1
              (existsb_is_str_app extension enabled) Hbot1)
    as [s2 [Hrun2 [_ [_ [Hen2 [Hdis2 _]]]]]].
  eexists e1, _. split; [exact Hrun1 |]. split; [exact Hrun2 |].
  cbn [Config.self]. split.
  - rewrite Hen2, (remove_first_app extension enabled Hout). reflexivity.
  - exact Hdis2.
Qed.

Lemma enable_then_disable_witness :
  let e := Config.mkEnv sample_self sample_files [] in
  exists e1 e2,
    Config.enable_extension "fun" e = (Config.Returns tt, e1) /\
    Config.disable_extension "fun" e1 = (Config.Returns tt, e2) /\
    Config.deref (Config.self e2) (Config.extensions_enabled (Config.self e2))
      = Config.JArr [Config.JStr "music"] /\
    Config.deref (Config.self e2) (Config.extensions_disabled (Config.self e2))
      = Config.JArr [Config.JStr "mod"; Config.JStr "fun"].
Proof.
  cbv zeta.
  apply (enable_then_disable (Config.mkEnv sample_self sample_files []) "fun"
           [Config.JStr "music"] [Config.JStr "fun"; Config.JStr "mod"]
           [("token", Config.JStr "abc"); ("debug", Config.JBool true);
            ("owner", Config.JNull)]);
    first [left; reflexivity | reflexivity].
Defined.

(** X17.  An extension that is not in the list to move it from is not
    moved: [enable_extension] prints "Extension is already enabled." when
    it is in the enabled list, and otherwise a text that is the same for
    every extension, the name is not filled in; [disable_extension]
    likewise.  The object and the files stay as they were, nothing is
    saved. *)
Theorem extension_not_moved (e : Config.Env) (extension : string)
    (enabled disabled : list Config.JSON) :
  let s := Config.self e in
  Config.deref s (Config.extensions_enabled s) = Config.JArr enabled ->
  Config.deref s (Config.extensions_disabled s) = Config.JArr disabled ->
  (existsb (Config.is_str extension) disabled = false ->
     Config.enable_extension extension e
       = (Config.Returns tt,
          Config.mkEnv s (Config.files e)
            (Config.stdout e
               ++ [if existsb (Config.is_str extension) enabled
                   then "Extension is already enabled."
                   else "Extension {extension} not found"])))
  /\
  (existsb (Config.is_str extension) enabled = false ->
     Config.disable_extension extension e
       = (Config.Returns tt,
          Config.mkEnv s (Config.files e)
            (Config.stdout e
               ++ [if existsb (Config.is_str extension) disabled
                   then "Extension is already disabled."
                   else "Extension {extension} not found"]))).
Proof.
  intros s Hen Hdis. split; intros Hout.
  - rewrite (enable_extension_step e extension disabled Hdis), Hout. fold s.
    rewrite Hen. cbn [Config.contains].
    destruct (existsb (Config.is_str extension) enabled); reflexivity.
  - rewrite (disable_extension_step e extension enabled Hen), Hout. fold s.
    rewrite Hdis. cbn [Config.contains].
    destruct (existsb (Config.is_str extension) disabled); reflexivity.
Qed.

Lemma extension_not_moved_witness :
  let e := Config.mkEnv sample_self sample_files [] in
  Config.enable_extension "music" e
    = (Config.Returns tt,
       Config.mkEnv sample_self sample_files ["Extension is already enabled."]) /\
  Config.enable_extension "reddit" e
    = (Config.Returns tt,
       Config.mkEnv sample_self sample_files ["Extension {extension} not found"]) /\
  Config.disable_extension "reddit" e
    = (Config.Returns tt,
       Config.mkEnv sample_self sample_files ["Extension {extension} not found"]).
Proof.
  cbv zeta. split; [| split].
  - apply (extension_not_moved (Config.mkEnv sample_self sample_files []) "music"
             [Config.JStr "music"] [Config.JStr "fun"; Config.JStr "mod"]); reflexivity.
  - apply (extension_not_moved (Config.mkEnv sample_self sample_files []) "reddit"
             [Config.JStr "music"] [Config.JStr "fun"; Config.JStr "mod"]); reflexivity.
  - apply (extension_not_moved (Config.mkEnv sample_self sample_files []) "reddit"
             [Config.JStr "music"] [Config.JStr "fun"; Config.JStr "mod"]); reflexivity.
Defined.

(** X18.  What [enable_extension] saves is the document [config], so the
    move shows in the file only for a list that [config] itself holds.  A
    list that the object took from [default], because [config] had none,
    is changed in [default], which is never saved: the file then keeps for
    that list what [config] had before. *)
Theorem saved_lists_are_those_of_config (e : Config.Env) (extension : string)
    (enabled disabled : list Config.JSON) (bot : list (string * Config.JSON)) :
  let s := Config.self e in
  Config.refers_to (Config.extensions_enabled s) "extensions" "enabled" ->
  Config.refers_to (Config.extensions_disabled s) "extensions" "disabled" ->
  Config.deref s (Config.extensions_enabled s) = Config.JArr enabled ->
  Config.deref s (Config.extensions_disabled s) = Config.JArr disabled ->
  Config.at_path (Config.config s) "bot" None = Config.JObj bot ->
  existsb (Config.is_str extension) disabled = true ->
  exists saved,
    fst (Config.enable_extension extension e) = Config.Returns tt /\
    Config.files (snd (Config.enable_extension extension e)) !! "config.json" = Some saved /\
    (Config.extensions_enabled s = Config.InConfig "extensions" (Some "enabled") ->
       Config.item2 saved "extensions" "enabled"
         = Some (Config.JArr (enabled ++ [Config.JStr extension]))) /\
    (Config.extensions_enabled s = Config.InDefault "extensions" (Some "enabled") ->
       Config.item2 saved "extensions" "enabled"
         = Config.item2 (Config.config s) "extensions" "enabled") /\
    (Config.extensions_disabled s = Config.InConfig "extensions" (Some "disabled") ->
       Config.item2 saved "extensions" "disabled"
         = Some (Config.JArr (Config.remove_first extension disabled))) /\
    (Config.extensions_disabled s = Config.InDefault "extensions" (Some "disabled") ->
       Config.item2 saved "extensions" "disabled"
         = Config.item2 (Config.config s) "extensions" "disabled").
Proof.
  intros s Hre Hrd Hen Hdis Hbot Hin.
  destruct (enable_extension_run e extension enabled disabled bot Hre Hrd Hen Hdis Hin Hbot)
    as [s' [Hrun [Hre' [Hrd' [Hen' [Hdis' [_ Hitems]]]]]]].
  fold s in Hre', Hrd', Hitems.
  exists (Config.config s'). rewrite Hrun. cbn [fst snd Config.files].
  split; [reflexivity |]. split; [apply lookup_insert_eq |].
  assert (Hfound : forall doc group key items,
            Config.at_path doc group (Some key) = Config.JArr items ->
            Config.item2 doc group key = Some (Config.JArr items)).
  { intros doc group key items Hv. rewrite at_path_item2 in Hv.
    destruct (Config.item2 doc group key); simpl in Hv; [congruence | discriminate]. }
  split; [| split; [| split]].
  - intros Hc. rewrite Hre', Hc in Hen'. apply Hfound, Hen'.
  - intros Hd. apply Hitems; [discriminate | | rewrite Hd; discriminate].
    destruct Hrd as [-> | ->]; discriminate.
  - intros Hc. rewrite Hrd', Hc in Hdis'. apply Hfound, Hdis'.
  - intros Hd. apply Hitems; [discriminate | rewrite Hd; discriminate |].
    destruct Hre as [-> | ->]; discriminate.
Qed.

Lemma saved_lists_are_those_of_config_witness :
  let partial :=
    Config.JObj
      [("bot", Config.JObj [("token", Config.JStr "abc")]);
       ("extensions", Config.JObj [("disabled", Config.JArr [Config.JStr "fun"])])] in
  let s :=
    Config.mk partial sample_default
      (Config.InDefault "bot" (Some "prefixes"))
      (Config.InDefault "extensions" (Some "enabled"))
      (Config.InConfig "extensions" (Some "disabled")) in
  exists saved,
    Config.files (snd (Config.enable_extension "fun" (Config.mkEnv s sample_files [])))
      !! "config.json" = Some saved /\
    Config.item2 saved "extensions" "enabled" = None /\
    Config.item2 saved "extensions" "disabled" = Some (Config.JArr []).
Proof.
  cbv zeta.
  match goal with
  | |- context [Config.mkEnv ?s sample_files []] =>
      destruct (saved_lists_are_those_of_config (Config.mkEnv s sample_files []) "fun"
                  [] [Config.JStr "fun"] [("token", Config.JStr "abc")])
        as [saved [_ [Hsaved [_ [Hdefault [Hconfig _]]]]]];
        [right; reflexivity | left; reflexivity | reflexivity | reflexivity | reflexivity
        | reflexivity |]
  end.
  exists saved. split; [exact Hsaved |]. split.
  - rewrite Hdefault by reflexivity. reflexivity.
  - rewrite Hconfig by reflexivity. reflexivity.
Defined.

(** * Further properties of the queue command *)

Lemma ceil_div_10 (n : Z) : ceil_div n 10 = (n - 1) / 10 + 1.
Proof.
  unfold ceil_div. replace (n + 10 - 1) with (n - 1 + 1 * 10) by lia.
  apply Z.div_add. discriminate.
Qed.

(** X19.  The pages of a queue that is not empty cover it: the song at
    position [i] is shown, numbered [i], on page [(i - 1) / 10 + 1], which
    is one of the pages 1 to [pages] of the footer; a page from 1 on shows
    at most ten songs, and it shows none exactly when it lies beyond
    [pages]. *)
Theorem queue_pages_cover (s : VoiceState.t) :
  let q := VoiceState.songs s in
  let pages := ceil_div (Z.of_nat (length q)) 10 in
  q <> [] ->
  (forall (i : Z) (song : Track),
     1 <= i -> q !! Z.to_nat (i - 1) = Some song ->
     let page := (i - 1) / 10 + 1 in
     1 <= page <= pages /\
     exists entries,
       Music.queue page s = (Ok tt, s, [SendQueue entries page pages]) /\
       entries !! Z.to_nat ((i - 1) mod 10) = Some (i, song))
  /\
  (forall page : Z,
     1 <= page ->
     exists entries,
       Music.queue page s = (Ok tt, s, [SendQueue entries page pages]) /\
       (length entries <= 10)%nat /\
       (entries = [] <-> pages < page)).
Proof.
  intros q pages Hq. split.
  - intros i song Hi Hsong page.
    pose proof (lookup_lt_Some _ _ _ Hsong) as Hlt.
    pose proof (Z.div_mod (i - 1) 10 ltac:(discriminate)) as Hdiv.
    pose proof (Z.mod_pos_bound (i - 1) 10 eq_refl) as Hmod.
    assert (Hpage : 1 <= page <= pages).
    { subst page pages. rewrite ceil_div_10. split.
      - pose proof (Z.div_pos (i - 1) 10). lia.
      - apply Z.add_le_mono_r, Z.div_le_mono; lia. }
    split; [exact Hpage |].
    eexists. split; [apply queue_run; [exact Hq | lia] |].
    fold q. rewrite enumerate_lookup.
    rewrite lookup_take_lt by lia. rewrite lookup_drop.
    replace (Z.to_nat ((page - 1) * 10) + Z.to_nat ((i - 1) mod 10))%nat
      with (Z.to_nat (i - 1)) by (subst page; lia).
    rewrite Hsong. simpl. do 2 f_equal. subst page. lia.
  - intros page Hpage.
    eexists. split; [apply queue_run; [exact Hq | exact Hpage] |].
    fold q. set (start := Z.to_nat ((page - 1) * 10)).
    assert (Hlen : length (enumerate (take 10 (drop start q)) ((page - 1) * 10 + 1))
                   = (10 `min` (length q - start))%nat).
    { rewrite length_enumerate, length_take, length_drop. reflexivity. }
    split; [lia |].
    assert (Hlast : pages < page <-> (length q <= start)%nat).
    { subst pages start. rewrite ceil_div_10.
      assert (Hn : 1 <= Z.of_nat (length q)) by (destruct q; [congruence | simpl; lia]).
      pose proof (Z.div_mod (Z.of_nat (length q) - 1) 10 ltac:(discriminate)) as Hdiv.
      pose proof (Z.mod_pos_bound (Z.of_nat (length q) - 1) 10 eq_refl) as Hmod.
      lia. }
    rewrite Hlast. split.
    + intros Hnil. rewrite Hnil in Hlen. cbn [length] in Hlen. lia.
    + intros Hge. apply length_zero_iff_nil. lia.
Qed.

Lemma queue_pages_cover_witness :
  Music.queue 1 playing_session
    = (Ok tt, playing_session, [SendQueue [(1, song_a); (2, song_b); (3, song_c)] 1 1]) /\
  (exists entries,
     Music.queue 1 playing_session = (Ok tt, playing_session, [SendQueue entries 1 1]) /\
     entries !! 1%nat = Some (2, song_b)).
Proof.
  destruct (queue_pages_cover playing_session) as [Hshown _]; [discriminate |].
  destruct (Hshown 2 song_b) as [_ Hentry]; [lia | reflexivity |].
  split; [reflexivity | exact Hentry].
Defined.
